(** * TalaFood ("Pantry Pal Scanner"): scan workflow, inventory list and
      AI gateway, embedded from [src/App.tsx], [src/services/geminiService.ts]
      and the type declarations of [types.ts].

    React state slots become the fields of one record [AppState]; every
    [setX] call is a functional update of that record, applied in the order
    the handler issues them.  Awaited calls are values of a small exception
    monad [result]; [try ... catch] is [try_catch].  The platform pieces the
    handlers consult (the generative service, [JSON.parse], [localStorage],
    [crypto.randomUUID], [Date]) are arguments of the definitions that call
    them. *)

From Stdlib Require Import List Bool Arith NArith ZArith Lia String Ascii.
Import ListNotations.

(** ** JavaScript strings *)

(** A JavaScript string is a sequence of UTF-16 code units. *)
Module JsString.

Definition t : Type := list N.

(** Literals of the source, written as Rocq strings of ASCII characters. *)
Definition str (s : string) : t := map N_of_ascii (list_ascii_of_string s).

Fixpoint eqb (a b : t) : bool :=
  match a, b with
  | [], [] => true
  | x :: a', y :: b' => N.eqb x y && eqb a' b'
  | _, _ => false
  end.

(** [!s] on a string: only the empty string is falsy. *)
Definition is_empty (s : t) : bool :=
  match s with [] => true | _ :: _ => false end.

(** WhiteSpace and LineTerminator code points of ECMAScript, the set
    [String.prototype.trim] strips. *)
Definition is_white_space (c : N) : bool :=
  (N.eqb c 9 || N.eqb c 10 || N.eqb c 11 || N.eqb c 12 || N.eqb c 13
   || N.eqb c 32 || N.eqb c 160 || N.eqb c 5760
   || (N.leb 8192 c && N.leb c 8202)
   || N.eqb c 8232 || N.eqb c 8233 || N.eqb c 8239 || N.eqb c 8287
   || N.eqb c 12288 || N.eqb c 65279)%bool.

Fixpoint trim_start (s : t) : t :=
  match s with
  | [] => []
  | c :: s' => if is_white_space c then trim_start s' else s
  end.

Definition trim_end (s : t) : t := rev (trim_start (rev s)).

(** [s.trim()] *)
Definition trim (s : t) : t := trim_end (trim_start s).

(** A string begins (ends) with white space. *)
Definition begins_with_space (s : t) : bool :=
  match s with
  | [] => false
  | c :: _ => is_white_space c
  end.

Definition ends_with_space (s : t) : bool := begins_with_space (rev s).

Fixpoint starts_with (p s : t) : bool :=
  match p, s with
  | [], _ => true
  | _ :: _, [] => false
  | x :: p', y :: s' => N.eqb x y && starts_with p' s'
  end.

(** [s.includes(sub)] *)
Fixpoint includes (s sub : t) : bool :=
  starts_with sub s ||
  match s with
  | [] => false
  | _ :: s' => includes s' sub
  end.

(** [s.indexOf(c)] for a one-character needle: the first position of
    [c], or -1. *)
Fixpoint indexOf (c : N) (s : t) : Z :=
  match s with
  | [] => (-1)%Z
  | x :: s' =>
      if N.eqb x c then 0%Z
      else let i := indexOf c s' in
           if (i <? 0)%Z then (-1)%Z else (i + 1)%Z
  end.

(** [s.substring(a, b)]: both indices are clamped to [0 .. length] and
    swapped when [a > b]. *)
Definition substring (a b : Z) (s : t) : t :=
  let len := Z.of_nat (List.length s) in
  let a' := Z.min (Z.max a 0) len in
  let b' := Z.min (Z.max b 0) len in
  let lo := Z.min a' b' in
  let hi := Z.max a' b' in
  firstn (Z.to_nat (hi - lo)) (skipn (Z.to_nat lo) s).

(** [s.split(c)] for a one-character separator: the pieces between the
    separators, at least one piece. *)
Fixpoint split (c : N) (s : t) : list t :=
  match s with
  | [] => [[]]
  | x :: s' =>
      if N.eqb x c then [] :: split c s'
      else match split c s' with
           | piece :: rest => (x :: piece) :: rest
           | [] => [[x]]
           end
  end.

(** [parts.join(sep)] *)
Fixpoint join (sep : t) (parts : list t) : t :=
  match parts with
  | [] => []
  | [p] => p
  | p :: rest => p ++ sep ++ join sep rest
  end.

End JsString.

Abbreviation jsstring := JsString.t.
Abbreviation str := JsString.str.

(** ** Exceptions *)

(** What a [throw] carries: an [Error] object with its [message], or any
    other value (for which [err instanceof Error] is false). *)
Inductive thrown : Type :=
| ErrorObj (message : jsstring)
| OtherValue.

(** The outcome of a call that may throw. *)
Inductive result (A : Type) : Type :=
| Return (a : A)
| Throw (e : thrown).

Arguments Return {A} a.
Arguments Throw {A} e.

Definition bind {A B : Type} (m : result A) (k : A -> result B) : result B :=
  match m with
  | Return a => k a
  | Throw e => Throw e
  end.

(** [try { body } catch (e) { handler e }] *)
Definition try_catch {A : Type} (body : result A) (handler : thrown -> result A)
  : result A :=
  match body with
  | Return a => Return a
  | Throw e => handler e
  end.

Declare Scope result_scope.
Delimit Scope result_scope with result.
Notation "x <- m ;; k" := (bind m (fun x => k))
  (at level 61, m at next level, right associativity) : result_scope.

(** ** Types of [types.ts] *)

Record Product : Type := {
  id : jsstring;
  name : jsstring;
  expiryDate : jsstring;
  nameImageBase64 : jsstring;
  expiryImageBase64 : jsstring;
  scannedAt : jsstring
}.

Inductive ScanStage : Type :=
| IDLE
| AWAITING_NAME_IMAGE
| PROCESSING_NAME_IMAGE
| AWAITING_EXPIRY_IMAGE
| PROCESSING_EXPIRY_IMAGE
| CONFIRM_DETAILS.

(** A parsed JSON value, what [JSON.parse] hands back at type [any].
    Numbers keep their literal: nothing here computes with them. *)
#[local] Unset Elimination Schemes.
Inductive json : Type :=
| JNull
| JBool (b : bool)
| JNumber (literal : jsstring)
| JString (s : jsstring)
| JArray (items : list json)
| JObject (fields : list (jsstring * json)).
#[local] Set Elimination Schemes.

(** [key in obj] for a parsed value; false for everything but objects. *)
Definition has_field (key : jsstring) (v : json) : bool :=
  match v with
  | JObject fields => existsb (fun kv => JsString.eqb (fst kv) key) fields
  | _ => false
  end.

(** The shape of [Recipe]: an object with the three mandatory fields. *)
Definition has_recipe_fields (v : json) : bool :=
  has_field (str "recipeName") v
  && has_field (str "ingredients") v
  && has_field (str "instructions") v.

(** ** The AI gateway, [services/geminiService.ts] *)

Definition comma : N := 44.
Definition colon : N := 58.
Definition semicolon : N := 59.

Definition getBase64Data (dataUrl : jsstring) : jsstring :=
  if JsString.is_empty dataUrl || negb (JsString.includes dataUrl [comma])
  then []
  else nth 1 (JsString.split comma dataUrl) [].

Definition getMimeType (dataUrl : jsstring) : jsstring :=
  if JsString.is_empty dataUrl
     || negb (JsString.includes dataUrl [colon])
     || negb (JsString.includes dataUrl [semicolon])
  then str "image/jpeg"
  else JsString.substring (JsString.indexOf colon dataUrl + 1)
                          (JsString.indexOf semicolon dataUrl) dataUrl.

Record InlineData : Type := {
  mimeType : jsstring;
  data : jsstring
}.

Inductive Part : Type :=
| InlinePart (inlineData : InlineData)
| TextPart (text : jsstring).

(** The two requests sent to [ai.models.generateContent], both for the model
    [GEMINI_MODEL]: the parts of one content, or a prompt together with the
    JSON response configuration (MIME type [application/json] and the recipe
    schema). *)
Inductive GenerateContentRequest : Type :=
| PartsRequest (parts : list Part)
| JsonRequest (prompt : jsstring).

Definition msg_no_key : jsstring := str "Gemini API Key is not configured.".
Definition msg_no_image : jsstring := str "Image data is missing.".
Definition msg_bad_url : jsstring := str "Invalid image data URL format.".
Definition msg_invalid_key : jsstring :=
  str "Invalid Gemini API Key. Please check your configuration.".
Definition msg_quota : jsstring :=
  str "Gemini API quota exceeded. Please check your usage or billing.".
Definition msg_extract_failed : jsstring :=
  str "Failed to extract text using Gemini API. Check console for details.".
Definition msg_no_ingredients : jsstring :=
  str "No ingredients provided to suggest recipes.".
Definition msg_recipes_failed : jsstring :=
  str "Failed to suggest recipes using Gemini API. Check console for details.".

Section Gateway.

(** [process.env.API_KEY]; [None] is [undefined]. *)
Variable API_KEY : option jsstring.

(** [await ai.models.generateContent(request)] followed by the read of
    [response.text]: the text of the response, or what was thrown on the
    way (by the call, or by using the text of a response that has none). *)
Variable generateContent : GenerateContentRequest -> result jsstring.

(** [JSON.parse]: the parsed value, or the [SyntaxError] it throws. *)
Variable JSON_parse : jsstring -> result json.

(** [!API_KEY] *)
Definition no_api_key : bool :=
  match API_KEY with
  | None => true
  | Some k => JsString.is_empty k
  end.

(** The [catch] block shared in shape by both functions: the message of
    the caught error is searched for two markers, everything else gets
    the function's own final message. *)
Definition rethrow {A : Type} (final : jsstring) (error : thrown) : result A :=
  match error with
  | ErrorObj message =>
      if JsString.includes message (str "API key not valid")
      then Throw (ErrorObj msg_invalid_key)
      else if JsString.includes message (str "quota")
      then Throw (ErrorObj msg_quota)
      else Throw (ErrorObj final)
  | OtherValue => Throw (ErrorObj final)
  end.

Definition extractTextFromImage (imageBase64DataUrl promptText : jsstring)
  : result jsstring :=
  if no_api_key then Throw (ErrorObj msg_no_key)
  else if JsString.is_empty imageBase64DataUrl then Throw (ErrorObj msg_no_image)
  else
    let base64Data := getBase64Data imageBase64DataUrl in
    let mimeType := getMimeType imageBase64DataUrl in
    if JsString.is_empty base64Data then Throw (ErrorObj msg_bad_url)
    else
      let imagePart := InlinePart {| mimeType := mimeType; data := base64Data |} in
      let textPart := TextPart promptText in
      try_catch
        (text <- generateContent (PartsRequest [imagePart; textPart]) ;;
         Return (JsString.trim text))%result
        (rethrow msg_extract_failed).

Definition recipe_prompt (ingredients : list jsstring) : jsstring :=
  str "Based on the following ingredients, suggest a few simple recipes. Ingredients: "
  ++ JsString.join (str ", ") ingredients ++ str ".".

Definition suggestRecipesFromIngredients (ingredients : list jsstring)
  : result json :=
  if no_api_key then Throw (ErrorObj msg_no_key)
  else if Nat.eqb (List.length ingredients) 0 then Throw (ErrorObj msg_no_ingredients)
  else
    let prompt := recipe_prompt ingredients in
    try_catch
      (text <- generateContent (JsonRequest prompt) ;;
       let jsonText := JsString.trim text in
       if JsString.is_empty jsonText then Return (JArray [])
       else JSON_parse jsonText)%result
      (rethrow msg_recipes_failed).

End Gateway.

(** ** The application state, [App.tsx]

    One field per [useState] slot of the scan workflow and the inventory.
    The four slots of the recipe dialog are written by no handler below and
    are left out. *)

Record AppState : Type := {
  scanStage : ScanStage;
  products : list Product;
  currentNameImage : option jsstring;
  currentExpiryImage : option jsstring;
  extractedName : jsstring;
  editedName : jsstring;
  extractedExpiry : jsstring;
  editedExpiry : jsstring;
  isLoading : bool;
  error : option jsstring
}.

(** The state of the first render. *)
Definition initialState : AppState := {|
  scanStage := IDLE;
  products := [];
  currentNameImage := None;
  currentExpiryImage := None;
  extractedName := [];
  editedName := [];
  extractedExpiry := [];
  editedExpiry := [];
  isLoading := false;
  error := None
|}.

Definition setScanStage (v : ScanStage) (st : AppState) : AppState :=
  {| scanStage := v; products := products st;
     currentNameImage := currentNameImage st;
     currentExpiryImage := currentExpiryImage st;
     extractedName := extractedName st; editedName := editedName st;
     extractedExpiry := extractedExpiry st; editedExpiry := editedExpiry st;
     isLoading := isLoading st; error := error st |}.

(** [setProducts(prev => f prev)]; a plain value [v] is [fun _ => v]. *)
Definition setProducts (f : list Product -> list Product) (st : AppState)
  : AppState :=
  {| scanStage := scanStage st; products := f (products st);
     currentNameImage := currentNameImage st;
     currentExpiryImage := currentExpiryImage st;
     extractedName := extractedName st; editedName := editedName st;
     extractedExpiry := extractedExpiry st; editedExpiry := editedExpiry st;
     isLoading := isLoading st; error := error st |}.

Definition setCurrentNameImage (v : option jsstring) (st : AppState) : AppState :=
  {| scanStage := scanStage st; products := products st;
     currentNameImage := v;
     currentExpiryImage := currentExpiryImage st;
     extractedName := extractedName st; editedName := editedName st;
     extractedExpiry := extractedExpiry st; editedExpiry := editedExpiry st;
     isLoading := isLoading st; error := error st |}.

Definition setCurrentExpiryImage (v : option jsstring) (st : AppState) : AppState :=
  {| scanStage := scanStage st; products := products st;
     currentNameImage := currentNameImage st;
     currentExpiryImage := v;
     extractedName := extractedName st; editedName := editedName st;
     extractedExpiry := extractedExpiry st; editedExpiry := editedExpiry st;
     isLoading := isLoading st; error := error st |}.

Definition setExtractedName (v : jsstring) (st : AppState) : AppState :=
  {| scanStage := scanStage st; products := products st;
     currentNameImage := currentNameImage st;
     currentExpiryImage := currentExpiryImage st;
     extractedName := v; editedName := editedName st;
     extractedExpiry := extractedExpiry st; editedExpiry := editedExpiry st;
     isLoading := isLoading st; error := error st |}.

Definition setEditedName (v : jsstring) (st : AppState) : AppState :=
  {| scanStage := scanStage st; products := products st;
     currentNameImage := currentNameImage st;
     currentExpiryImage := currentExpiryImage st;
     extractedName := extractedName st; editedName := v;
     extractedExpiry := extractedExpiry st; editedExpiry := editedExpiry st;
     isLoading := isLoading st; error := error st |}.

Definition setExtractedExpiry (v : jsstring) (st : AppState) : AppState :=
  {| scanStage := scanStage st; products := products st;
     currentNameImage := currentNameImage st;
     currentExpiryImage := currentExpiryImage st;
     extractedName := extractedName st; editedName := editedName st;
     extractedExpiry := v; editedExpiry := editedExpiry st;
     isLoading := isLoading st; error := error st |}.

Definition setEditedExpiry (v : jsstring) (st : AppState) : AppState :=
  {| scanStage := scanStage st; products := products st;
     currentNameImage := currentNameImage st;
     currentExpiryImage := currentExpiryImage st;
     extractedName := extractedName st; editedName := editedName st;
     extractedExpiry := extractedExpiry st; editedExpiry := v;
     isLoading := isLoading st; error := error st |}.

Definition setIsLoading (v : bool) (st : AppState) : AppState :=
  {| scanStage := scanStage st; products := products st;
     currentNameImage := currentNameImage st;
     currentExpiryImage := currentExpiryImage st;
     extractedName := extractedName st; editedName := editedName st;
     extractedExpiry := extractedExpiry st; editedExpiry := editedExpiry st;
     isLoading := v; error := error st |}.

Definition setError (v : option jsstring) (st : AppState) : AppState :=
  {| scanStage := scanStage st; products := products st;
     currentNameImage := currentNameImage st;
     currentExpiryImage := currentExpiryImage st;
     extractedName := extractedName st; editedName := editedName st;
     extractedExpiry := extractedExpiry st; editedExpiry := editedExpiry st;
     isLoading := isLoading st; error := v |}.

(** A handler body read top to bottom: [st |> f |> g] applies [f], then [g]. *)
Notation "st |> f" := (f st) (at level 45, left associativity, only parsing).

(** [!image] for a slot of type [string | null]: [null] and the empty
    string are both falsy. *)
Definition image_missing (image : option jsstring) : bool :=
  match image with
  | None => true
  | Some s => JsString.is_empty s
  end.

(** The message a handler shows for what it caught:
    [err instanceof Error ? err.message : fallback]. *)
Definition message_of (err : thrown) (fallback : jsstring) : jsstring :=
  match err with
  | ErrorObj message => message
  | OtherValue => fallback
  end.

Definition name_prompt : jsstring :=
  str "Identify the primary product name from this image. Provide only the name.".
Definition expiry_prompt : jsstring :=
  str "Identify the expiry date from this image. Provide only the date, ideally in YYYY-MM-DD format if clearly visible, otherwise as seen.".

Definition msg_load_failed : jsstring := str "Could not load saved products.".
Definition msg_save_failed : jsstring :=
  str "Could not save products. Changes might not persist.".
Definition msg_name_failed : jsstring := str "Failed to process product name image.".
Definition msg_expiry_failed : jsstring := str "Failed to process expiry date image.".
Definition msg_empty_name : jsstring := str "Product name cannot be empty.".
Definition msg_images_required : jsstring :=
  str "Both product name and expiry images are required.".

(** The updater of [handleSaveProduct]: [[newProduct, ...prevProducts]]. *)
Definition prependProduct (newProduct : Product) (prevProducts : list Product)
  : list Product :=
  newProduct :: prevProducts.

(** The updater of [handleDeleteProduct]:
    [prevProducts.filter(p => p.id !== productId)]. *)
Definition removeProduct (productId : jsstring) (prevProducts : list Product)
  : list Product :=
  filter (fun p => negb (JsString.eqb (id p) productId)) prevProducts.

Definition resetScanState (st : AppState) : AppState :=
  st |> setCurrentNameImage None
     |> setCurrentExpiryImage None
     |> setExtractedName []
     |> setEditedName []
     |> setExtractedExpiry []
     |> setEditedExpiry []
     |> setError None.

Definition handleStartScan (st : AppState) : AppState :=
  st |> resetScanState |> setScanStage AWAITING_NAME_IMAGE.

Definition handleCancelScan (st : AppState) : AppState :=
  st |> setScanStage IDLE |> resetScanState.

Definition handleDeleteProduct (productId : jsstring) (st : AppState) : AppState :=
  st |> setProducts (removeProduct productId).

(** The [onClick] of the "Retake All" button. *)
Definition handleRetakeAll (st : AppState) : AppState :=
  st |> setScanStage AWAITING_NAME_IMAGE.

(** The image of a slot once [!image] has been ruled out. *)
Definition image_data (image : option jsstring) : jsstring :=
  match image with
  | Some s => s
  | None => []
  end.

(** [handleSaveProduct]; [uuid] is what [crypto.randomUUID()] returns and
    [now] what [new Date().toISOString()] returns in this call. *)
Definition handleSaveProduct (uuid now : jsstring) (st : AppState) : AppState :=
  if JsString.is_empty (JsString.trim (editedName st)) then
    st |> setError (Some msg_empty_name)
  else if image_missing (currentNameImage st)
          || image_missing (currentExpiryImage st) then
    st |> setError (Some msg_images_required)
  else
    let newProduct := {|
      id := uuid;
      name := JsString.trim (editedName st);
      expiryDate := JsString.trim (editedExpiry st);
      nameImageBase64 := image_data (currentNameImage st);
      expiryImageBase64 := image_data (currentExpiryImage st);
      scannedAt := now |} in
    st |> setProducts (prependProduct newProduct)
       |> setScanStage IDLE
       |> resetScanState.

Section Capture.

Variable API_KEY : option jsstring.
Variable generateContent : GenerateContentRequest -> result jsstring.

(** [handleNameImageCapture] up to its [await]. *)
Definition handleNameImageCapture_begin (imageBase64 : jsstring)
  (st : AppState) : AppState :=
  st |> setCurrentNameImage (Some imageBase64)
     |> setScanStage PROCESSING_NAME_IMAGE
     |> setIsLoading true
     |> setError None.

(** [handleNameImageCapture] from the point the awaited extraction
    settles: the rest of [try], or [catch], and then [finally]. *)
Definition handleNameImageCapture_settle (outcome : result jsstring)
  (st : AppState) : AppState :=
  match outcome with
  | Return name =>
      st |> setExtractedName name
         |> setEditedName name
         |> setScanStage AWAITING_EXPIRY_IMAGE
  | Throw err =>
      st |> setError (Some (message_of err msg_name_failed))
         |> setScanStage AWAITING_NAME_IMAGE
  end |> setIsLoading false.

Definition handleNameImageCapture (imageBase64 : jsstring) (st : AppState)
  : AppState :=
  st |> handleNameImageCapture_begin imageBase64
     |> handleNameImageCapture_settle
          (extractTextFromImage API_KEY generateContent imageBase64 name_prompt).

Definition handleExpiryImageCapture_begin (imageBase64 : jsstring)
  (st : AppState) : AppState :=
  st |> setCurrentExpiryImage (Some imageBase64)
     |> setScanStage PROCESSING_EXPIRY_IMAGE
     |> setIsLoading true
     |> setError None.

Definition handleExpiryImageCapture_settle (outcome : result jsstring)
  (st : AppState) : AppState :=
  match outcome with
  | Return expiry =>
      st |> setExtractedExpiry expiry
         |> setEditedExpiry expiry
         |> setScanStage CONFIRM_DETAILS
  | Throw err =>
      st |> setError (Some (message_of err msg_expiry_failed))
         |> setScanStage AWAITING_EXPIRY_IMAGE
  end |> setIsLoading false.

Definition handleExpiryImageCapture (imageBase64 : jsstring) (st : AppState)
  : AppState :=
  st |> handleExpiryImageCapture_begin imageBase64
     |> handleExpiryImageCapture_settle
          (extractTextFromImage API_KEY generateContent imageBase64 expiry_prompt).

End Capture.

Section Storage.

(** [localStorage.getItem('pantryProducts')]: the stored text, [None] for
    [null], or what the call threw. *)
Variable getItem : result (option jsstring).

(** [JSON.parse] at the type [setProducts] takes its result for. *)
Variable JSON_parse_products : jsstring -> result (list Product).

(** [JSON.stringify(products)] and
    [localStorage.setItem('pantryProducts', text)]. *)
Variable JSON_stringify_products : list Product -> jsstring.
Variable setItem : jsstring -> result unit.

(** The effect that runs once after the first render.  Its value is the
    state it leaves, or the exception that escapes it. *)
Definition loadProductsEffect (st : AppState) : result AppState :=
  try_catch
    (storedProducts <- getItem ;;
     match storedProducts with
     | None => Return st
     | Some text =>
         if JsString.is_empty text then Return st
         else
           parsed <- JSON_parse_products text ;;
           Return (st |> setProducts (fun _ => parsed))
     end)%result
    (fun e => Return (st |> setError (Some msg_load_failed))).

(** The effect that runs whenever [products] changed. *)
Definition saveProductsEffect (st : AppState) : result AppState :=
  try_catch
    (_ <- setItem (JSON_stringify_products (products st)) ;;
     Return st)%result
    (fun e => Return (st |> setError (Some msg_save_failed))).

End Storage.

(** [list()] of the inventory: the collection as the state holds it. *)
Definition list_products (st : AppState) : list Product := products st.

(** ** What the rendered page lets the user do, [renderContent]

    One constructor per control of the page.  A capture carries the image
    the camera produced and the behaviour of the service during that
    extraction; a save carries the identifier and the timestamp drawn in
    that call.  While an extraction is pending the page shows the spinner
    and no control, so a capture is taken as one event, from the click to
    the end of its [finally]. *)

Inductive Event : Type :=
| ClickScanNewItem
| NameCaptured (imageBase64 : jsstring)
               (service : GenerateContentRequest -> result jsstring)
| ExpiryCaptured (imageBase64 : jsstring)
                 (service : GenerateContentRequest -> result jsstring)
| TypeName (value : jsstring)
| TypeExpiry (value : jsstring)
| ClickSaveProduct (uuid now : jsstring)
| ClickRetakeAll
| ClickCancel
| ClickDelete (productId : jsstring)
| ClickDismiss.

(** The spinner replaces every control of [renderContent]. *)
Definition spinner_shown (st : AppState) : bool :=
  isLoading st &&
  match scanStage st with
  | PROCESSING_NAME_IMAGE | PROCESSING_EXPIRY_IMAGE => true
  | _ => false
  end.

(** [error && ...] in JSX: a non-empty message. *)
Definition error_shown (st : AppState) : bool :=
  match error st with
  | Some m => negb (JsString.is_empty m)
  | None => false
  end.

(** Whether the page as rendered from [st] carries the control of [ev]. *)
Definition offered (ev : Event) (st : AppState) : bool :=
  match ev with
  | ClickDismiss =>
      error_shown st &&
      match scanStage st with CONFIRM_DETAILS => false | _ => true end
  | _ =>
      if spinner_shown st then false
      else
        match scanStage st, ev with
        | AWAITING_NAME_IMAGE, NameCaptured _ _ => true
        | AWAITING_NAME_IMAGE, ClickCancel => true
        | AWAITING_EXPIRY_IMAGE, TypeName _ =>
            negb (image_missing (currentNameImage st))
        | AWAITING_EXPIRY_IMAGE, ExpiryCaptured _ _ => true
        | AWAITING_EXPIRY_IMAGE, ClickCancel => true
        | CONFIRM_DETAILS, TypeName _ => true
        | CONFIRM_DETAILS, TypeExpiry _ => true
        | CONFIRM_DETAILS, ClickSaveProduct _ _ => true
        | CONFIRM_DETAILS, ClickRetakeAll => true
        | CONFIRM_DETAILS, ClickCancel => true
        | (IDLE | PROCESSING_NAME_IMAGE | PROCESSING_EXPIRY_IMAGE),
          ClickScanNewItem => true
        | (IDLE | PROCESSING_NAME_IMAGE | PROCESSING_EXPIRY_IMAGE),
          ClickDelete productId =>
            existsb (fun p => JsString.eqb (id p) productId) (products st)
        | _, _ => false
        end
  end.

Section Workflow.

Variable API_KEY : option jsstring.

(** The handler wired to each control. *)
Definition dispatch (ev : Event) (st : AppState) : AppState :=
  match ev with
  | ClickScanNewItem => handleStartScan st
  | NameCaptured imageBase64 service =>
      handleNameImageCapture API_KEY service imageBase64 st
  | ExpiryCaptured imageBase64 service =>
      handleExpiryImageCapture API_KEY service imageBase64 st
  | TypeName value => setEditedName value st
  | TypeExpiry value => setEditedExpiry value st
  | ClickSaveProduct uuid now => handleSaveProduct uuid now st
  | ClickRetakeAll => handleRetakeAll st
  | ClickCancel => handleCancelScan st
  | ClickDelete productId => handleDeleteProduct productId st
  | ClickDismiss => setError None st
  end.

(** A user session: events taken one after the other, each from the page
    as the previous one left it; events the page does not offer are
    skipped. *)
Fixpoint run (evs : list Event) (st : AppState) : AppState :=
  match evs with
  | [] => st
  | ev :: evs' =>
      run evs' (if offered ev st then dispatch ev st else st)
  end.

(** The states a session reaches from a freshly loaded page, whatever
    collection and load warning it starts with. *)
Inductive reachable : AppState -> Prop :=
| reachable_loaded (stored : list Product) (warning : option jsstring) :
    reachable (initialState |> setProducts (fun _ => stored)
                            |> setError warning)
| reachable_step (ev : Event) (st : AppState) :
    reachable st -> offered ev st = true -> reachable (dispatch ev st).

End Workflow.

(** ** Vocabulary of the specification *)

(** A slot holds an image: it is not [null] and its encoding is not empty. *)
Definition image_present (image : option jsstring) : Prop :=
  match image with
  | Some s => s <> []
  | None => False
  end.

(** The conditions under which a save is to be accepted. *)
Definition save_valid (st : AppState) : Prop :=
  JsString.trim (editedName st) <> []
  /\ image_present (currentNameImage st)
  /\ image_present (currentExpiryImage st).

(** A save went through: one record more at the front, stage [IDLE]. *)
Definition save_succeeded (before after : AppState) : Prop :=
  scanStage after = IDLE
  /\ exists record, products after = record :: products before.

(** The empty scan session: no image, no text, no error. *)
Definition empty_session (st : AppState) : Prop :=
  currentNameImage st = None
  /\ currentExpiryImage st = None
  /\ extractedName st = []
  /\ editedName st = []
  /\ extractedExpiry st = []
  /\ editedExpiry st = []
  /\ error st = None.

(** The images and texts of the session are cleared. *)
Definition session_cleared (st : AppState) : Prop :=
  currentNameImage st = None
  /\ currentExpiryImage st = None
  /\ extractedName st = []
  /\ editedName st = []
  /\ extractedExpiry st = []
  /\ editedExpiry st = [].

(** The session keeps nothing of a capture: slots and texts are as before. *)
Definition retains_nothing_new (before after : AppState) : Prop :=
  currentNameImage after = currentNameImage before
  /\ currentExpiryImage after = currentExpiryImage before
  /\ extractedName after = extractedName before
  /\ editedName after = editedName before
  /\ extractedExpiry after = extractedExpiry before
  /\ editedExpiry after = editedExpiry before.

(** What a failed name capture of [imageBase64] leaves: the stage to retake
    the name image, an error message, the captured image in its slot, and
    the rest of the session and the collection as before. *)
Definition failed_name_capture_outcome (imageBase64 : jsstring)
  (before after : AppState) : Prop :=
  scanStage after = AWAITING_NAME_IMAGE
  /\ (exists message, error after = Some message /\ message <> [])
  /\ currentNameImage after = Some imageBase64
  /\ currentExpiryImage after = currentExpiryImage before
  /\ extractedName after = extractedName before
  /\ editedName after = editedName before
  /\ extractedExpiry after = extractedExpiry before
  /\ editedExpiry after = editedExpiry before
  /\ products after = products before
  /\ isLoading after = false.

(** A stored payload the load cannot use: absent, empty, or rejected by the
    parser. *)
Definition payload_unusable (parse : jsstring -> result (list Product))
  (stored : option jsstring) : Prop :=
  stored = None
  \/ stored = Some []
  \/ exists text e, stored = Some text /\ parse text = Throw e.

(** The caught error carries one of the two markers the [catch] blocks of
    the gateway look for. *)
Definition marked (e : thrown) : bool :=
  match e with
  | ErrorObj message =>
      JsString.includes message (str "API key not valid")
      || JsString.includes message (str "quota")
  | OtherValue => false
  end.

(** The messages [extractTextFromImage] can fail with. *)
Definition extraction_messages : list jsstring :=
  [msg_no_key; msg_no_image; msg_bad_url; msg_invalid_key; msg_quota;
   msg_extract_failed].

(** The messages [suggestRecipesFromIngredients] can fail with. *)
Definition suggestion_messages : list jsstring :=
  [msg_no_key; msg_no_ingredients; msg_invalid_key; msg_quota;
   msg_recipes_failed].

(** What every stage of a running session guarantees about the image
    slots; between two events no extraction is pending. *)
Definition stage_invariant (st : AppState) : Prop :=
  match scanStage st with
  | IDLE | AWAITING_NAME_IMAGE => True
  | AWAITING_EXPIRY_IMAGE => image_present (currentNameImage st)
  | CONFIRM_DETAILS =>
      image_present (currentNameImage st)
      /\ image_present (currentExpiryImage st)
  | PROCESSING_NAME_IMAGE | PROCESSING_EXPIRY_IMAGE => False
  end.

(** ** Sample data for the examples below *)

Definition uuid_one : string := "3b241101-e2bb-4255-8caf-4136c566a962".
Definition uuid_two : string := "9f1c2d3e-0a4b-4c5d-8e6f-7a8b9c0d1e2f".

Definition sample_product (i n : string) : Product := {|
  id := str i;
  name := str n;
  expiryDate := str "2025-01-01";
  nameImageBase64 := str "data:image/jpeg;base64,AAAA";
  expiryImageBase64 := str "data:image/jpeg;base64,BBBB";
  scannedAt := str "2024-06-01T10:00:00.000Z"
|}.

(** A service that answers every request with [text], and one whose call
    fails with an [Error] carrying [message]. *)
Definition service_returns (text : string)
  : GenerateContentRequest -> result jsstring :=
  fun _ => Return (str text).

Definition service_throws (message : string)
  : GenerateContentRequest -> result jsstring :=
  fun _ => Throw (ErrorObj (str message)).

Definition sample_key : option jsstring := Some (str "k-123").
Definition sample_name_image : jsstring := str "data:image/jpeg;base64,AAAA".
Definition sample_expiry_image : jsstring := str "data:image/jpeg;base64,BBBB".

(** The confirmation screen after both captures went through, with the two
    edit fields holding [nameText] and [expiryText]. *)
Definition confirm_state (nameText expiryText : jsstring) : AppState := {|
  scanStage := CONFIRM_DETAILS;
  products := [];
  currentNameImage := Some sample_name_image;
  currentExpiryImage := Some sample_expiry_image;
  extractedName := str "Oats";
  editedName := nameText;
  extractedExpiry := str "2025-01-01";
  editedExpiry := expiryText;
  isLoading := false;
  error := None
|}.

Definition double_quote : N := 34.

(** A [SyntaxError] message that quotes the rejected text, the way V8 words
    it for short inputs. *)
Definition unexpected_token_message (text : jsstring) : jsstring :=
  str "Unexpected token '" ++ firstn 1 text ++ str "', "
  ++ [double_quote] ++ text ++ [double_quote] ++ str " is not valid JSON".

(** A stand-in for [JSON.parse] on the few texts the examples use. *)
Definition sample_parse (text : jsstring) : result json :=
  if JsString.eqb text (str "{}") then Return (JObject [])
  else if JsString.eqb text (str "[]") then Return (JArray [])
  else Throw (ErrorObj (unexpected_token_message text)).

Definition sample_parse_products (text : jsstring) : result (list Product) :=
  if JsString.eqb text (str "[]") then Return []
  else Throw (ErrorObj (unexpected_token_message text)).

(** A storage slot that takes every write. *)
Definition sample_stringify (ps : list Product) : jsstring :=
  match ps with
  | [] => str "[]"
  | _ :: _ => str "[...]"
  end.

Definition sample_setItem (text : jsstring) : result unit := Return tt.

Definition sample_ingredients : list jsstring := [str "eggs"; str "bread"].

(** The two-photo session of a user who confirms without edits. *)
Definition oats_session : list Event :=
  [ ClickScanNewItem;
    NameCaptured sample_name_image (service_returns "  Oats ");
    ExpiryCaptured sample_expiry_image (service_returns "2025-01-01");
    ClickSaveProduct (str "id-1") (str "2024-06-01T10:00:00.000Z") ].

(** A session that went through both captures, had a save refused for an
    emptied name field, typed the name again and then asked to retake. *)
Definition retake_session : list Event :=
  [ ClickScanNewItem;
    NameCaptured sample_name_image (service_returns "Oats");
    ExpiryCaptured sample_expiry_image (service_returns "2025-01-01");
    TypeName [];
    ClickSaveProduct (str "id-1") (str "2024-06-01T10:00:00.000Z");
    TypeName (str "Oats");
    ClickRetakeAll ].

(** * The rest of the application *)

(** ** The recipe dialog, [handleSuggestRecipes] and [RecipeModal] *)

(** The four [useState] slots of the recipe feature.  What [setRecipes]
    stores is whatever the gateway returned, a parsed JSON value. *)
Record RecipeState : Type := {
  isFetchingRecipes : bool;
  recipes : json;
  recipeError : option jsstring;
  isRecipeModalOpen : bool
}.

Definition initialRecipeState : RecipeState := {|
  isFetchingRecipes := false;
  recipes := JArray [];
  recipeError := None;
  isRecipeModalOpen := false
|}.

Definition setIsFetchingRecipes (v : bool) (rs : RecipeState) : RecipeState :=
  {| isFetchingRecipes := v; recipes := recipes rs;
     recipeError := recipeError rs;
     isRecipeModalOpen := isRecipeModalOpen rs |}.

Definition setRecipes (v : json) (rs : RecipeState) : RecipeState :=
  {| isFetchingRecipes := isFetchingRecipes rs; recipes := v;
     recipeError := recipeError rs;
     isRecipeModalOpen := isRecipeModalOpen rs |}.

Definition setRecipeError (v : option jsstring) (rs : RecipeState) : RecipeState :=
  {| isFetchingRecipes := isFetchingRecipes rs; recipes := recipes rs;
     recipeError := v;
     isRecipeModalOpen := isRecipeModalOpen rs |}.

Definition setIsRecipeModalOpen (v : bool) (rs : RecipeState) : RecipeState :=
  {| isFetchingRecipes := isFetchingRecipes rs; recipes := recipes rs;
     recipeError := recipeError rs;
     isRecipeModalOpen := v |}.

Definition msg_pantry_empty : jsstring :=
  str "Add some items to your pantry first to get recipe suggestions.".
Definition msg_no_recipes : jsstring :=
  str "Could not find any recipes for the items in your pantry.".
Definition msg_recipes_unknown : jsstring :=
  str "An unknown error occurred while fetching recipes.".

Section Suggest.

Variable API_KEY : option jsstring.
Variable generateContent : GenerateContentRequest -> result jsstring.
Variable JSON_parse : jsstring -> result json.

(** [obj.length > 0] for a parsed object: it depends on the number its
    [length] field, if any, converts to. *)
Variable object_length_positive : list (jsstring * json) -> bool.

(** [v && v.length > 0] for a parsed value.  Arrays and strings have their
    own length; [null] stops at [&&]; numbers and booleans have no
    [length], and [undefined > 0] is false. *)
Definition has_positive_length (v : json) : bool :=
  match v with
  | JArray items => negb (Nat.eqb (List.length items) 0)
  | JString s => negb (JsString.is_empty s)
  | JObject fields => object_length_positive fields
  | JNull | JBool _ | JNumber _ => false
  end.

(** [handleSuggestRecipes] from the [await] on: [try], [catch], [finally]. *)
Definition handleSuggestRecipes_settle (outcome : result json)
  (rs : RecipeState) : RecipeState :=
  match outcome with
  | Return suggestedRecipes =>
      if has_positive_length suggestedRecipes
      then rs |> setRecipes suggestedRecipes
      else rs |> setRecipeError (Some msg_no_recipes)
  | Throw err =>
      rs |> setRecipeError (Some (message_of err msg_recipes_unknown))
  end |> setIsFetchingRecipes false.

(** [handleSuggestRecipes] up to its [await], for a non-empty collection. *)
Definition handleSuggestRecipes_begin (rs : RecipeState) : RecipeState :=
  rs |> setIsFetchingRecipes true
     |> setRecipeError None
     |> setRecipes (JArray [])
     |> setIsRecipeModalOpen true.

(** The [onClose] of the dialog, [() => setIsRecipeModalOpen(false)]. *)
Definition closeRecipeModal (rs : RecipeState) : RecipeState :=
  rs |> setIsRecipeModalOpen false.

(** [handleSuggestRecipes], from the click to the end of its [finally].
    While the request is pending the dialog is on screen with its two
    close controls, and nothing else can write the four slots (the
    "Suggest Recipes" button is disabled): [closed] tells whether the user
    closed the dialog before the request settled.  The result is the scan
    state and the dialog state the handler leaves. *)
Definition handleSuggestRecipes (closed : bool) (st : AppState)
  (rs : RecipeState) : AppState * RecipeState :=
  if Nat.eqb (List.length (products st)) 0 then
    (st |> setError (Some msg_pantry_empty), rs)
  else
    let itemNames := map name (products st) in
    let pending := handleSuggestRecipes_begin rs in
    let at_settle := if closed then closeRecipeModal pending else pending in
    (st,
     at_settle
       |> handleSuggestRecipes_settle
            (suggestRecipesFromIngredients API_KEY generateContent JSON_parse
               itemNames)).

End Suggest.

(** [Recipe] of [types.ts], the element type of the [recipes] prop. *)
Record Recipe : Type := {
  recipeName : jsstring;
  ingredients : list jsstring;
  instructions : jsstring
}.

(** What [RecipeModal] puts into the body of the dialog. *)
Inductive Panel : Type :=
| LoadingPanel
| ErrorPanel (message : jsstring)
| EmptyPanel
| RecipesPanel (items : list Recipe).

(** [error && ...] and [!error] for a prop of type [string | null]. *)
Definition message_set (error : option jsstring) : bool :=
  match error with
  | Some m => negb (JsString.is_empty m)
  | None => false
  end.

(** [RecipeModal] on props of its declared types: [None] when it renders
    nothing, else the panels of its four conditional blocks, in the order
    of the source.  Every recipe of type [Recipe] has the name, the list
    and the text the recipes panel reads. *)
Definition RecipeModal (isOpen : bool) (recipes : list Recipe)
  (isLoading : bool) (error : option jsstring) : option (list Panel) :=
  if negb isOpen then None
  else Some (
    (if isLoading then [LoadingPanel] else [])
    ++ (match error with
        | Some message =>
            if negb (JsString.is_empty message) && negb isLoading
            then [ErrorPanel message] else []
        | None => []
        end)
    ++ (if negb isLoading && negb (message_set error)
           && Nat.eqb (List.length recipes) 0
        then [EmptyPanel] else [])
    ++ (if negb isLoading && negb (message_set error)
           && negb (Nat.eqb (List.length recipes) 0)
        then [RecipesPanel recipes] else [])).

(** The value of the own property [key] of a parsed object. *)
Fixpoint get_field (key : jsstring) (fields : list (jsstring * json))
  : option json :=
  match fields with
  | [] => None
  | (k, v) :: rest => if JsString.eqb k key then Some v else get_field key rest
  end.

Definition as_string (v : json) : option jsstring :=
  match v with
  | JString s => Some s
  | _ => None
  end.

Fixpoint as_strings (items : list json) : option (list jsstring) :=
  match items with
  | [] => Some []
  | v :: rest =>
      match as_string v, as_strings rest with
      | Some s, Some ss => Some (s :: ss)
      | _, _ => None
      end
  end.

(** A parsed value read at type [Recipe]: an object whose [recipeName] and
    [instructions] are strings and whose [ingredients] is an array of
    strings.  Anything else is not a [Recipe]. *)
Definition as_recipe (v : json) : option Recipe :=
  match v with
  | JObject fields =>
      match get_field (str "recipeName") fields,
            get_field (str "ingredients") fields,
            get_field (str "instructions") fields with
      | Some (JString n), Some (JArray items), Some (JString t) =>
          match as_strings items with
          | Some ings =>
              Some {| recipeName := n; ingredients := ings; instructions := t |}
          | None => None
          end
      | _, _, _ => None
      end
  | _ => None
  end.

Fixpoint as_recipe_list (items : list json) : option (list Recipe) :=
  match items with
  | [] => Some []
  | v :: rest =>
      match as_recipe v, as_recipe_list rest with
      | Some r, Some rs => Some (r :: rs)
      | _, _ => None
      end
  end.

(** The stored [recipes] read at the type of the prop, [Recipe[]]. *)
Definition as_recipes (v : json) : option (list Recipe) :=
  match v with
  | JArray items => as_recipe_list items
  | _ => None
  end.

(** ** The product card, [ProductCard.tsx] *)

Definition is_digit (c : N) : bool := N.leb 48 c && N.leb c 57.

Definition hyphen : N := 45.

(** [/^\d{4}$/.test(s)] *)
Definition matches_year (s : jsstring) : bool :=
  match s with
  | [a; b; c; d] => is_digit a && is_digit b && is_digit c && is_digit d
  | _ => false
  end.

(** [/^\d{4}-\d{2}$/.test(s)] *)
Definition matches_year_month (s : jsstring) : bool :=
  match s with
  | [a; b; c; d; h; m; n] =>
      is_digit a && is_digit b && is_digit c && is_digit d
      && N.eqb h hyphen && is_digit m && is_digit n
  | _ => false
  end.

Section ProductCard.

(** [isNaN(new Date(s).getTime())] *)
Variable date_is_NaN : jsstring -> bool.

(** [new Date(s).toLocaleDateString(undefined, { year: 'numeric',
    month: 'long' })], and the same with [day: 'numeric'] added. *)
Variable toLocaleDateString_month : jsstring -> result jsstring.
Variable toLocaleDateString_day : jsstring -> result jsstring.

Definition formatDate (isoDateString : jsstring) : result jsstring :=
  if JsString.is_empty isoDateString then Return (str "N/A")
  else
    try_catch
      (if date_is_NaN isoDateString then Return isoDateString
       else if matches_year isoDateString then Return isoDateString
       else if matches_year_month isoDateString
       then toLocaleDateString_month (isoDateString ++ str "-01")
       else toLocaleDateString_day isoDateString)
      (fun e => Return isoDateString).

(** [a || b] on strings. *)
Definition or_else (a b : jsstring) : jsstring :=
  if JsString.is_empty a then b else a.

(** The text after "Expiry Date:" on the card,
    [formatDate(product.expiryDate) || 'Not specified']. *)
Definition expiry_shown (product : Product) : result jsstring :=
  (formatted <- formatDate (expiryDate product) ;;
   Return (or_else formatted (str "Not specified")))%result.

(** The heading of the card, [product.name || 'Unnamed Product']. *)
Definition name_shown (product : Product) : jsstring :=
  or_else (name product) (str "Unnamed Product").

End ProductCard.

(** ** The capture surface, [CameraCapture.tsx] *)

Module CameraCapture.

(** What [getUserMedia] rejects with: an [Error] (a [DOMException] is one)
    with its [name] and [message], or any other value. *)
Inductive rejection : Type :=
| ErrorNamed (name message : jsstring)
| OtherRejection.

(** The outcome of [await navigator.mediaDevices.getUserMedia(...)]; a
    [MediaStream] is known by its handle. *)
Inductive acquisition : Type :=
| Granted (mediaStream : nat)
| Rejected (err : rejection).

(** The three [useState] slots of the component. *)
Record State : Type := {
  stream : option nat;
  error : option jsstring;
  isLoading : bool
}.

Definition initial : State :=
  {| stream := None; error := None; isLoading := true |}.

Definition setStream (v : option nat) (c : State) : State :=
  {| stream := v; error := error c; isLoading := isLoading c |}.
Definition setError (v : option jsstring) (c : State) : State :=
  {| stream := stream c; error := v; isLoading := isLoading c |}.
Definition setIsLoading (v : bool) (c : State) : State :=
  {| stream := stream c; error := error c; isLoading := v |}.

(** The component together with the device: [live] lists the streams whose
    tracks are running, [captured] the images handed to [onCapture], the
    latest first. *)
Record World : Type := {
  component : State;
  live : list nat;
  captured : list jsstring
}.

Definition msg_permission : jsstring :=
  str "Camera permission denied. Please enable camera access in your browser settings.".
Definition msg_no_camera : jsstring :=
  str "No camera found. Please ensure a camera is connected and enabled.".
Definition msg_access_prefix : jsstring := str "Error accessing camera: ".
Definition msg_unknown : jsstring :=
  str "An unknown error occurred while accessing the camera.".
Definition msg_not_ready : jsstring :=
  str "Failed to capture image. Camera not ready.".

(** The message of the [catch] block of [startCamera]. *)
Definition rejection_message (err : rejection) : jsstring :=
  match err with
  | ErrorNamed name message =>
      if JsString.eqb name (str "NotAllowedError") then msg_permission
      else if JsString.eqb name (str "NotFoundError")
              || JsString.eqb name (str "DevicesNotFoundError")
      then msg_no_camera
      else msg_access_prefix ++ message
  | OtherRejection => msg_unknown
  end.

(** [stream.getTracks().forEach(track => track.stop())] *)
Definition stop_tracks (s : nat) (running : list nat) : list nat :=
  filter (fun x => negb (Nat.eqb x s)) running.

(** [startCamera] as created in a render whose [stream] slot held
    [closure_stream]: the closure stops that stream, not the current one. *)
Definition startCamera (closure_stream : option nat) (outcome : acquisition)
  (w : World) : World :=
  let c := component w |> setIsLoading true |> setError None in
  let running :=
    match closure_stream with
    | Some s => stop_tracks s (live w)
    | None => live w
    end in
  match outcome with
  | Granted mediaStream =>
      {| component := c |> setStream (Some mediaStream) |> setIsLoading false;
         live := mediaStream :: running;
         captured := captured w |}
  | Rejected err =>
      {| component := c |> setError (Some (rejection_message err))
                        |> setIsLoading false;
         live := running;
         captured := captured w |}
  end.

(** The cleanup returned by the mount effect, with the [stream] of the
    render that created it. *)
Definition cleanup (closure_stream : option nat) (w : World) : World :=
  match closure_stream with
  | Some s =>
      {| component := component w; live := stop_tracks s (live w);
         captured := captured w |}
  | None => w
  end.

(** The effect has no dependencies: it runs once, with the [startCamera]
    and the [stream] of the first render. *)
Definition mount (outcome : acquisition) (running : list nat) : World :=
  startCamera (stream initial) outcome
    {| component := initial; live := running; captured := [] |}.

Definition unmount (w : World) : World := cleanup (stream initial) w.

Definition handleCanPlay (w : World) : World :=
  {| component := component w |> setIsLoading false; live := live w;
     captured := captured w |}.

(** [handleCapture]; [elements] tells whether both refs are set, [context]
    whether the canvas gave a 2d context, [dataUrl] is what
    [canvas.toDataURL('image/jpeg', 0.9)] returns. *)
Definition handleCapture (elements context : bool) (dataUrl : jsstring)
  (w : World) : World :=
  match stream (component w) with
  | Some _ =>
      if elements then
        if context then
          {| component := component w; live := live w;
             captured := dataUrl :: captured w |}
        else w
      else
        {| component := component w |> setError (Some msg_not_ready);
           live := live w; captured := captured w |}
  | None =>
      {| component := component w |> setError (Some msg_not_ready);
         live := live w; captured := captured w |}
  end.

(** What the user and the video element can do with the mounted
    component. *)
Inductive Event : Type :=
| ClickTryAgain (outcome : acquisition)
| VideoCanPlay
| ClickCapture (context : bool) (dataUrl : jsstring).

Definition error_shown (c : State) : bool := message_set (error c).

(** The "Try Again" button is inside [{error && ...}]; the capture button
    is inside [{!error && !isLoading && ...}] and disabled without a
    stream. *)
Definition offered (ev : Event) (c : State) : bool :=
  match ev with
  | ClickTryAgain _ => error_shown c
  | VideoCanPlay => true
  | ClickCapture _ _ =>
      negb (error_shown c) && negb (isLoading c)
      && match stream c with Some _ => true | None => false end
  end.

(** The video and the canvas are rendered in every state, so both refs are
    set whenever a click arrives; "Try Again" calls the [startCamera] of
    the latest render, whose closure holds the current stream. *)
Definition dispatch (ev : Event) (w : World) : World :=
  match ev with
  | ClickTryAgain outcome => startCamera (stream (component w)) outcome w
  | VideoCanPlay => handleCanPlay w
  | ClickCapture context dataUrl => handleCapture true context dataUrl w
  end.

Fixpoint run (evs : list Event) (w : World) : World :=
  match evs with
  | [] => w
  | ev :: evs' =>
      run evs' (if offered ev (component w) then dispatch ev w else w)
  end.

End CameraCapture.

(** ** Vocabulary of the further properties *)

(** A record as a save makes them: a trimmed, non-empty name and two
    non-empty images. *)
Definition record_complete (p : Product) : Prop :=
  name p <> []
  /\ JsString.trim (name p) = name p
  /\ nameImageBase64 p <> []
  /\ expiryImageBase64 p <> [].

(** The code unit [c] does not occur in [s]. *)
Definition free_of (c : N) (s : jsstring) : Prop := ~ In c s.

(** A data URL as [canvas.toDataURL] builds them. *)
Definition data_url (mime payload : jsstring) : jsstring :=
  str "data:" ++ mime ++ str ";base64," ++ payload.

(** The one request [extractTextFromImage] sends for an image and a
    prompt. *)
Definition extraction_request (imageBase64DataUrl promptText : jsstring)
  : GenerateContentRequest :=
  PartsRequest
    [ InlinePart {| mimeType := getMimeType imageBase64DataUrl;
                    data := getBase64Data imageBase64DataUrl |};
      TextPart promptText ].

(** A page as it is before any scan: stage [IDLE], the given collection. *)
Definition loaded_state (stored : list Product) (warning : option jsstring)
  : AppState :=
  initialState |> setProducts (fun _ => stored) |> setError warning.

(** The record a save builds from two captures. *)
Definition scanned_record (uuid now nameText expiryText nameImage expiryImage
  : jsstring) : Product := {|
  id := uuid;
  name := JsString.trim nameText;
  expiryDate := JsString.trim expiryText;
  nameImageBase64 := nameImage;
  expiryImageBase64 := expiryImage;
  scannedAt := now |}.






(** A stand-in for [JSON.parse] that knows one answer with one recipe. *)
Definition sample_recipe_json : json :=
  JArray [ JObject [ (str "recipeName", JString (str "Toast"));
                     (str "ingredients", JArray [JString (str "2 slices bread")]);
                     (str "instructions", JString (str "Toast the bread.")) ] ].

Definition sample_recipe_parse (text : jsstring) : result json :=
  if JsString.eqb text (str "[toast]") then Return sample_recipe_json
  else sample_parse text.

(** A stand-in for the [Date] functions of the card. *)
Definition sample_date_is_NaN (s : jsstring) : bool :=
  negb (matches_year s || matches_year_month s).

Definition sample_toLocale (s : jsstring) : result jsstring :=
  Return (str "formatted " ++ s).

Definition sample_object_length (fields : list (jsstring * json)) : bool :=
  false.

(** What holds of the capture surface throughout a session that started
    with the streams [running] already live: the stream it holds, if any,
    is the one stream added to them, and it holds one only while no error
    is set. *)
Definition camera_invariant (running : list nat) (w : CameraCapture.World)
  : Prop :=
  CameraCapture.live w
  = match CameraCapture.stream (CameraCapture.component w) with
    | Some m => m :: running
    | None => running
    end
  /\ (CameraCapture.stream (CameraCapture.component w) <> None ->
      CameraCapture.error (CameraCapture.component w) = None)
  /\ (CameraCapture.captured w <> [] ->
      CameraCapture.stream (CameraCapture.component w) <> None)
  /\ (CameraCapture.error (CameraCapture.component w) = None
      \/ exists err,
           CameraCapture.error (CameraCapture.component w)
           = Some (CameraCapture.rejection_message err)).

(** * Properties *)

(** ** Strings *)

Module JsStringFacts.
Import JsString.

Lemma eqb_refl (a : t) : eqb a a = true.
Proof.
  induction a as [|x a IH]; simpl; [reflexivity|].
  rewrite N.eqb_refl. exact IH.
Qed.

Lemma eqb_eq (a b : t) : eqb a b = true <-> a = b.
Proof.
  split.
  - revert b. induction a as [|x a IH]; intros [|y b] H; simpl in H;
      try discriminate; [reflexivity|].
    apply andb_true_iff in H. destruct H as [Hxy Hab].
    apply N.eqb_eq in Hxy. apply IH in Hab. congruence.
  - intros ->. apply eqb_refl.
Qed.

Lemma eqb_neq (a b : t) : eqb a b = false <-> a <> b.
Proof.
  split.
  - intros H E. apply eqb_eq in E. congruence.
  - intros H. destruct (eqb a b) eqn:E; [|reflexivity].
    apply eqb_eq in E. contradiction.
Qed.

Lemma is_empty_true (s : t) : is_empty s = true <-> s = [].
Proof. destruct s; simpl; split; congruence. Qed.

Lemma is_empty_false (s : t) : is_empty s = false <-> s <> [].
Proof. destruct s; simpl; split; congruence. Qed.

Lemma trim_start_fixed (s : t) :
  begins_with_space s = false -> trim_start s = s.
Proof. destruct s as [|c s]; simpl; [reflexivity|]. intros ->. reflexivity. Qed.

Lemma trim_start_clean (s : t) : begins_with_space (trim_start s) = false.
Proof.
  induction s as [|c s IH]; simpl; [reflexivity|].
  destruct (is_white_space c) eqn:E; [exact IH|]. simpl. exact E.
Qed.

Lemma trim_start_suffix (s : t) : exists ws, s = ws ++ trim_start s.
Proof.
  induction s as [|c s [ws IH]]; simpl.
  - exists []. reflexivity.
  - destruct (is_white_space c).
    + exists (c :: ws). simpl. congruence.
    + exists []. reflexivity.
Qed.

(** A string with no white space at either end is its own trim. *)
Lemma trim_fixed (s : t) :
  begins_with_space s = false -> ends_with_space s = false -> trim s = s.
Proof.
  intros Hb He. unfold trim, trim_end. rewrite (trim_start_fixed _ Hb).
  unfold ends_with_space in He. rewrite (trim_start_fixed _ He).
  apply rev_involutive.
Qed.

Lemma trim_end_clean (s : t) : ends_with_space (trim_end s) = false.
Proof.
  unfold ends_with_space, trim_end. rewrite rev_involutive.
  apply trim_start_clean.
Qed.

Lemma trim_ends_clean (s : t) : ends_with_space (trim s) = false.
Proof. apply trim_end_clean. Qed.

End JsStringFacts.

Example trim_both_ends :
  JsString.trim (str "  best before 03/2025 ") = str "best before 03/2025".
Proof. reflexivity. Qed.

Example trim_blank : JsString.trim [32; 160; 9; 10; 65279]%N = [].
Proof. reflexivity. Qed.

Example split_pieces :
  JsString.split comma (str "a,b,,c") = [str "a"; str "b"; []; str "c"].
Proof. reflexivity. Qed.

Example getBase64Data_sample : getBase64Data sample_name_image = str "AAAA".
Proof. reflexivity. Qed.

Example getBase64Data_no_comma : getBase64Data (str "data:image/jpeg") = [].
Proof. reflexivity. Qed.

Example getMimeType_sample :
  getMimeType (str "data:image/png;base64,AAAA") = str "image/png".
Proof. reflexivity. Qed.

Example getMimeType_default : getMimeType (str "AAAA") = str "image/jpeg".
Proof. reflexivity. Qed.

Example recipe_prompt_sample :
  recipe_prompt sample_ingredients =
  str "Based on the following ingredients, suggest a few simple recipes. Ingredients: eggs, bread.".
Proof. reflexivity. Qed.

(** ** The inventory list *)

Lemma setProducts_products (f : list Product -> list Product) (st : AppState) :
  products (setProducts f st) = f (products st).
Proof. reflexivity. Qed.

Lemma removeProduct_fresh (productId : jsstring) (ps : list Product) :
  ~ In productId (map id ps) -> removeProduct productId ps = ps.
Proof.
  induction ps as [|p ps IH]; simpl; intros H; [reflexivity|].
  destruct (JsString.eqb (id p) productId) eqn:E.
  - apply JsStringFacts.eqb_eq in E. exfalso. apply H. left. exact E.
  - simpl. f_equal. apply IH. intros Hin. apply H. right. exact Hin.
Qed.

Lemma removeProduct_absent (productId : jsstring) (ps : list Product) :
  ~ In productId (map id (removeProduct productId ps)).
Proof.
  induction ps as [|p ps IH]; simpl; [tauto|].
  destruct (JsString.eqb (id p) productId) eqn:E; simpl; [exact IH|].
  apply JsStringFacts.eqb_neq in E. intros [H|H]; [contradiction|].
  exact (IH H).
Qed.

(** ** The scan workflow *)

Lemma image_missing_false (image : option jsstring) :
  image_missing image = false <-> image_present image.
Proof.
  destruct image as [s|]; simpl.
  - apply JsStringFacts.is_empty_false.
  - split; [discriminate | tauto].
Qed.

Lemma image_missing_true (image : option jsstring) :
  image_missing image = true <-> ~ image_present image.
Proof.
  rewrite <- image_missing_false. destruct (image_missing image); split;
    congruence.
Qed.

Lemma resetScanState_empty (st : AppState) : empty_session (resetScanState st).
Proof. repeat split. Qed.

Lemma resetScanState_keeps (st : AppState) :
  scanStage (resetScanState st) = scanStage st
  /\ products (resetScanState st) = products st
  /\ isLoading (resetScanState st) = isLoading st.
Proof. repeat split. Qed.

(** What [handleSaveProduct] does in each of its three branches. *)
Lemma handleSaveProduct_empty_name (uuid now : jsstring) (st : AppState) :
  JsString.trim (editedName st) = [] ->
  handleSaveProduct uuid now st = setError (Some msg_empty_name) st.
Proof. intros H. unfold handleSaveProduct. rewrite H. reflexivity. Qed.

Lemma handleSaveProduct_no_image (uuid now : jsstring) (st : AppState) :
  JsString.trim (editedName st) <> [] ->
  ~ (image_present (currentNameImage st)
     /\ image_present (currentExpiryImage st)) ->
  handleSaveProduct uuid now st = setError (Some msg_images_required) st.
Proof.
  intros Hname Himg. unfold handleSaveProduct.
  apply JsStringFacts.is_empty_false in Hname. rewrite Hname.
  destruct (image_missing (currentNameImage st)) eqn:En; [reflexivity|].
  destruct (image_missing (currentExpiryImage st)) eqn:Ee; [reflexivity|].
  exfalso. apply Himg. split; apply image_missing_false; assumption.
Qed.

Lemma handleSaveProduct_valid (uuid now : jsstring) (st : AppState) :
  save_valid st ->
  handleSaveProduct uuid now st =
  st |> setProducts (prependProduct {|
          id := uuid;
          name := JsString.trim (editedName st);
          expiryDate := JsString.trim (editedExpiry st);
          nameImageBase64 := image_data (currentNameImage st);
          expiryImageBase64 := image_data (currentExpiryImage st);
          scannedAt := now |})
     |> setScanStage IDLE
     |> resetScanState.
Proof.
  intros (Hname & Hn & He). unfold handleSaveProduct.
  apply JsStringFacts.is_empty_false in Hname. rewrite Hname.
  apply image_missing_false in Hn, He. rewrite Hn, He. reflexivity.
Qed.

Lemma save_valid_dec (st : AppState) : {save_valid st} + {~ save_valid st}.
Proof.
  unfold save_valid.
  destruct (JsString.is_empty (JsString.trim (editedName st))) eqn:E1.
  - right. intros (H & _). apply JsStringFacts.is_empty_true in E1. auto.
  - apply JsStringFacts.is_empty_false in E1.
    destruct (image_missing (currentNameImage st)) eqn:E2.
    + right. intros (_ & H & _). apply image_missing_true in E2. auto.
    + apply image_missing_false in E2.
      destruct (image_missing (currentExpiryImage st)) eqn:E3.
      * right. intros (_ & _ & H). apply image_missing_true in E3. auto.
      * apply image_missing_false in E3. left. auto.
Qed.

(** C1: on the confirmation screen, a save goes through (a record is put at
    the front of the collection and the stage becomes [IDLE]) exactly when
    the trimmed edited name is not empty and both image slots hold an
    image; in every other case the collection is unchanged, the stage is
    still [CONFIRM_DETAILS] and an error message is set. *)
Theorem save_succeeds_iff_valid (uuid now : jsstring) (st : AppState) :
  scanStage st = CONFIRM_DETAILS ->
  (save_succeeded st (handleSaveProduct uuid now st) <-> save_valid st)
  /\ (~ save_valid st ->
      products (handleSaveProduct uuid now st) = products st
      /\ scanStage (handleSaveProduct uuid now st) = CONFIRM_DETAILS
      /\ exists message,
           error (handleSaveProduct uuid now st) = Some message
           /\ message <> []).
Proof.
  intros Hstage.
  assert (Hrej : ~ save_valid st ->
      products (handleSaveProduct uuid now st) = products st
      /\ scanStage (handleSaveProduct uuid now st) = CONFIRM_DETAILS
      /\ exists message,
           error (handleSaveProduct uuid now st) = Some message
           /\ message <> []).
  { intros Hinv.
    destruct (JsString.is_empty (JsString.trim (editedName st))) eqn:E.
    - apply JsStringFacts.is_empty_true in E.
      rewrite (handleSaveProduct_empty_name uuid now st E). simpl.
      repeat split; try assumption.
      exists msg_empty_name. split; [reflexivity | discriminate].
    - apply JsStringFacts.is_empty_false in E.
      rewrite (handleSaveProduct_no_image uuid now st E).
      + simpl. repeat split; try assumption.
        exists msg_images_required. split; [reflexivity | discriminate].
      + intros [Hn He]. apply Hinv. repeat split; assumption. }
  split; [|exact Hrej].
  split.
  - intros [Hidle _]. destruct (save_valid_dec st) as [Hv|Hinv]; [exact Hv|].
    destruct (Hrej Hinv) as (_ & Hs & _). congruence.
  - intros Hv. rewrite (handleSaveProduct_valid uuid now st Hv).
    split; [reflexivity|]. simpl. unfold prependProduct. eauto.
Qed.

Lemma save_succeeds_iff_valid_witness :
  (save_succeeded (confirm_state (str " Oats ") (str "2025-01-01"))
     (handleSaveProduct (str "id-1") (str "2024-06-01T10:00:00.000Z")
        (confirm_state (str " Oats ") (str "2025-01-01")))
   <-> save_valid (confirm_state (str " Oats ") (str "2025-01-01")))
  /\ (~ save_valid (confirm_state (str " Oats ") (str "2025-01-01")) ->
      products (handleSaveProduct (str "id-1") (str "2024-06-01T10:00:00.000Z")
                  (confirm_state (str " Oats ") (str "2025-01-01")))
      = products (confirm_state (str " Oats ") (str "2025-01-01"))
      /\ scanStage (handleSaveProduct (str "id-1") (str "2024-06-01T10:00:00.000Z")
                      (confirm_state (str " Oats ") (str "2025-01-01")))
         = CONFIRM_DETAILS
      /\ exists message,
           error (handleSaveProduct (str "id-1") (str "2024-06-01T10:00:00.000Z")
                    (confirm_state (str " Oats ") (str "2025-01-01")))
           = Some message
           /\ message <> []).
Proof.
  apply (save_succeeds_iff_valid (str "id-1") (str "2024-06-01T10:00:00.000Z")
           (confirm_state (str " Oats ") (str "2025-01-01"))).
  reflexivity.
Defined.

Example save_with_blank_name_refused :
  handleSaveProduct (str "id-1") (str "2024-06-01T10:00:00.000Z")
    (confirm_state (str "   ") (str "2025-01-01"))
  = setError (Some msg_empty_name) (confirm_state (str "   ") (str "2025-01-01")).
Proof. reflexivity. Qed.

Example save_without_expiry_image_refused :
  handleSaveProduct (str "id-1") (str "2024-06-01T10:00:00.000Z")
    (setCurrentExpiryImage None (confirm_state (str "Oats") (str "2025-01-01")))
  = setError (Some msg_images_required)
      (setCurrentExpiryImage None (confirm_state (str "Oats") (str "2025-01-01"))).
Proof. reflexivity. Qed.

(** C9: cancelling leaves the stage [IDLE] and the session empty: both
    image slots [null], the four texts empty, no error message.  This holds
    from every stage, so in particular from every stage other than [IDLE];
    the collection is not touched. *)
Theorem cancel_resets_to_idle (st : AppState) :
  scanStage (handleCancelScan st) = IDLE
  /\ empty_session (handleCancelScan st)
  /\ products (handleCancelScan st) = products st.
Proof. repeat split. Qed.

(** A successful save stores the trimmed texts and the two images. *)
Lemma handleSaveProduct_record (uuid now : jsstring) (st : AppState) :
  save_valid st ->
  products (handleSaveProduct uuid now st) =
  {| id := uuid;
     name := JsString.trim (editedName st);
     expiryDate := JsString.trim (editedExpiry st);
     nameImageBase64 := image_data (currentNameImage st);
     expiryImageBase64 := image_data (currentExpiryImage st);
     scannedAt := now |} :: products st.
Proof. intros Hv. rewrite (handleSaveProduct_valid uuid now st Hv). reflexivity. Qed.

(** C4, as stated, fails: a confirmed expiry text with a leading blank is
    stored without it. *)
Lemma saved_expiry_drops_outer_space :
  let st := confirm_state (str "Oats") (str " 2025-01-01") in
  let st' := handleSaveProduct (str "id-1") (str "2024-06-01T10:00:00.000Z") st in
  map expiryDate (products st') = [str "2025-01-01"]
  /\ editedExpiry st = str " 2025-01-01"
  /\ map expiryDate (products st') <> [editedExpiry st].
Proof. repeat split. discriminate. Qed.

(** C4, amended: the [expiryDate] of a saved record is the confirmed expiry
    text with the white space at its two ends removed; whenever the
    confirmed text neither begins nor ends with white space, it is stored
    exactly as it is. *)
Theorem saved_expiry_is_trimmed_text (uuid now : jsstring) (st : AppState) :
  save_valid st ->
  exists record,
    products (handleSaveProduct uuid now st) = record :: products st
    /\ expiryDate record = JsString.trim (editedExpiry st)
    /\ (JsString.begins_with_space (editedExpiry st) = false ->
        JsString.ends_with_space (editedExpiry st) = false ->
        expiryDate record = editedExpiry st).
Proof.
  intros Hv. eexists. split; [apply (handleSaveProduct_record uuid now st Hv)|].
  simpl. split; [reflexivity|]. intros Hb He.
  apply JsStringFacts.trim_fixed; assumption.
Qed.

Lemma saved_expiry_is_trimmed_text_witness :
  exists record,
    products (handleSaveProduct (str "id-1") (str "2024-06-01T10:00:00.000Z")
                (confirm_state (str "Oats") (str "best before 03/2025")))
    = record :: products (confirm_state (str "Oats") (str "best before 03/2025"))
    /\ expiryDate record = JsString.trim (str "best before 03/2025")
    /\ (JsString.begins_with_space (str "best before 03/2025") = false ->
        JsString.ends_with_space (str "best before 03/2025") = false ->
        expiryDate record = str "best before 03/2025").
Proof.
  apply (saved_expiry_is_trimmed_text (str "id-1") (str "2024-06-01T10:00:00.000Z")
           (confirm_state (str "Oats") (str "best before 03/2025"))).
  repeat split; discriminate.
Defined.

(** "Retake All" writes the stage and nothing else. *)
Lemma handleRetakeAll_only_stage (st : AppState) :
  scanStage (handleRetakeAll st) = AWAITING_NAME_IMAGE
  /\ retains_nothing_new st (handleRetakeAll st)
  /\ error (handleRetakeAll st) = error st
  /\ products (handleRetakeAll st) = products st.
Proof. repeat split. Qed.

(** The other way into [AWAITING_NAME_IMAGE], "Scan New Item", does clear
    the session first. *)
Lemma handleStartScan_clears (st : AppState) :
  scanStage (handleStartScan st) = AWAITING_NAME_IMAGE
  /\ empty_session (handleStartScan st).
Proof. repeat split. Qed.

(** C2: what the code does at the end of [retake_session].  The stage is
    [AWAITING_NAME_IMAGE], but both images and all four texts of the
    abandoned attempt are still in the session (it is not cleared), and the
    message of the refused save is still set, now shown by the page banner
    that is meant for errors other than those of the confirmation screen. *)
Theorem retake_all_keeps_session :
  let st := run sample_key retake_session initialState in
  scanStage st = AWAITING_NAME_IMAGE
  /\ currentNameImage st = Some sample_name_image
  /\ currentExpiryImage st = Some sample_expiry_image
  /\ extractedName st = str "Oats"
  /\ editedName st = str "Oats"
  /\ extractedExpiry st = str "2025-01-01"
  /\ editedExpiry st = str "2025-01-01"
  /\ error st = Some msg_empty_name
  /\ offered ClickDismiss st = true
  /\ ~ session_cleared st.
Proof.
  vm_compute. repeat split; try reflexivity.
  intros (H & _). discriminate H.
Qed.

(** ** The gateway *)

(** Closes the goals of the early [throw new Error("...")] exits: the
    thrown value is the [Error] with that literal message. *)
Ltac fixed_message :=
  intros [= <-]; eexists; split; [reflexivity | simpl; auto].

Lemma rethrow_cases (A : Type) (final : jsstring) (error : thrown) :
  exists m, @rethrow A final error = Throw (ErrorObj m)
            /\ In m [msg_invalid_key; msg_quota; final].
Proof.
  destruct error as [message|]; simpl.
  - destruct (JsString.includes message (str "API key not valid")).
    + exists msg_invalid_key. simpl. auto.
    + destruct (JsString.includes message (str "quota")).
      * exists msg_quota. simpl. auto.
      * exists final. simpl. auto.
  - exists final. simpl. auto.
Qed.

(** An error without either marker, and a thrown value that is no [Error],
    get the function's own final message. *)
Lemma rethrow_unmarked (A : Type) (final message : jsstring) :
  JsString.includes message (str "API key not valid") = false ->
  JsString.includes message (str "quota") = false ->
  @rethrow A final (ErrorObj message) = Throw (ErrorObj final).
Proof. intros H1 H2. simpl. rewrite H1, H2. reflexivity. Qed.

Lemma extraction_messages_nonempty (m : jsstring) :
  In m extraction_messages -> m <> [].
Proof.
  unfold extraction_messages. simpl.
  intros [H|[H|[H|[H|[H|[H|[]]]]]]]; subst m; discriminate.
Qed.

(** Whatever [extractTextFromImage] throws is an [Error] with one of its
    six messages. *)
Lemma extractTextFromImage_throws (API_KEY : option jsstring)
  (generateContent : GenerateContentRequest -> result jsstring)
  (imageBase64DataUrl promptText : jsstring) (e : thrown) :
  extractTextFromImage API_KEY generateContent imageBase64DataUrl promptText
  = Throw e ->
  exists m, e = ErrorObj m /\ In m extraction_messages.
Proof.
  unfold extractTextFromImage, extraction_messages.
  destruct (no_api_key API_KEY).
  { fixed_message. }
  destruct (JsString.is_empty imageBase64DataUrl).
  { fixed_message. }
  destruct (JsString.is_empty (getBase64Data imageBase64DataUrl)).
  { fixed_message. }
  destruct (generateContent _) as [text|err]; simpl.
  - discriminate.
  - destruct (rethrow_cases jsstring msg_extract_failed err) as (m & Hm & Hin).
    rewrite Hm. intros [= <-]. exists m. split; [reflexivity|].
    simpl in Hin. simpl. intuition.
Qed.

(** A successful extraction was given a non-empty image and a configured
    key. *)
Lemma extractTextFromImage_returns (API_KEY : option jsstring)
  (generateContent : GenerateContentRequest -> result jsstring)
  (imageBase64DataUrl promptText text : jsstring) :
  extractTextFromImage API_KEY generateContent imageBase64DataUrl promptText
  = Return text ->
  no_api_key API_KEY = false /\ imageBase64DataUrl <> [].
Proof.
  unfold extractTextFromImage.
  destruct (no_api_key API_KEY); [discriminate|].
  destruct (JsString.is_empty imageBase64DataUrl) eqn:E; [discriminate|].
  intros _. split; [reflexivity|].
  apply JsStringFacts.is_empty_false. exact E.
Qed.

(** ** Captures *)

(** Measured from the state before the capture: the stage goes back to
    [AWAITING_NAME_IMAGE], a message is attached, the name-image slot holds
    the captured image, and the rest of the session and the collection are
    as they were. *)
Lemma failed_name_capture_returns_to_awaiting (API_KEY : option jsstring)
  (generateContent : GenerateContentRequest -> result jsstring)
  (imageBase64 : jsstring) (st : AppState) (e : thrown) :
  extractTextFromImage API_KEY generateContent imageBase64 name_prompt
  = Throw e ->
  failed_name_capture_outcome imageBase64 st
    (handleNameImageCapture API_KEY generateContent imageBase64 st).
Proof.
  intros Hthrow. unfold handleNameImageCapture. rewrite Hthrow.
  destruct (extractTextFromImage_throws _ _ _ _ _ Hthrow) as (m & -> & Hin).
  unfold failed_name_capture_outcome. simpl. repeat split.
  exists m. split; [reflexivity|].
  apply extraction_messages_nonempty. exact Hin.
Qed.


(** The expiry capture fails the same way: back to [AWAITING_EXPIRY_IMAGE]
    with a message, the name image and the texts untouched. *)
Lemma failed_expiry_capture_keeps_name_image (API_KEY : option jsstring)
  (generateContent : GenerateContentRequest -> result jsstring)
  (imageBase64 : jsstring) (st : AppState) (e : thrown) :
  extractTextFromImage API_KEY generateContent imageBase64 expiry_prompt
  = Throw e ->
  scanStage (handleExpiryImageCapture API_KEY generateContent imageBase64 st)
  = AWAITING_EXPIRY_IMAGE
  /\ error (handleExpiryImageCapture API_KEY generateContent imageBase64 st)
     = Some (message_of e msg_expiry_failed)
  /\ currentNameImage (handleExpiryImageCapture API_KEY generateContent imageBase64 st)
     = currentNameImage st
  /\ editedName (handleExpiryImageCapture API_KEY generateContent imageBase64 st)
     = editedName st
  /\ editedExpiry (handleExpiryImageCapture API_KEY generateContent imageBase64 st)
     = editedExpiry st.
Proof.
  intros Hthrow. unfold handleExpiryImageCapture. rewrite Hthrow.
  repeat split.
Qed.

(** ** Loading and saving the collection *)

(** No exception escapes the load effect, whatever the storage and the
    parser do. *)
Lemma loadProductsEffect_returns (getItem : result (option jsstring))
  (parse : jsstring -> result (list Product)) (st : AppState) :
  exists st', loadProductsEffect getItem parse st = Return st'.
Proof.
  unfold loadProductsEffect.
  destruct getItem as [[text|]|e]; simpl; eauto.
  destruct (JsString.is_empty text); simpl; eauto.
  destruct (parse text); simpl; eauto.
Qed.

(** Nor the save effect, and the collection in memory stays as it is when
    the write fails. *)
Lemma saveProductsEffect_returns (stringify : list Product -> jsstring)
  (setItem : jsstring -> result unit) (st : AppState) :
  exists st', saveProductsEffect stringify setItem st = Return st'
              /\ products st' = products st.
Proof.
  unfold saveProductsEffect.
  destruct (setItem _) as [[]|e]; simpl; eauto.
Qed.

(** C5, as stated, fails: with nothing stored the load leaves the first
    state as it is, and that state carries no warning; the same holds for
    an empty stored text, and the save effect that follows does not set
    one either when the write goes through. *)
Lemma absent_payload_loads_without_warning :
  loadProductsEffect (Return None) sample_parse_products initialState
  = Return initialState
  /\ loadProductsEffect (Return (Some [])) sample_parse_products initialState
     = Return initialState
  /\ saveProductsEffect sample_stringify sample_setItem initialState
     = Return initialState
  /\ error initialState = None.
Proof. repeat split. Qed.

(** C5, amended: at process start, for every stored payload that is absent,
    empty, or rejected by the parser, the load effect ends without an
    exception and the collection is empty; the warning "Could not load
    saved products." is set when a non-empty payload was rejected, and no
    warning is set when the payload is absent or empty. *)
Theorem unusable_payload_starts_empty
  (parse : jsstring -> result (list Product)) (stored : option jsstring) :
  payload_unusable parse stored ->
  exists st',
    loadProductsEffect (Return stored) parse initialState = Return st'
    /\ list_products st' = []
    /\ error st' = match stored with
                   | Some (_ :: _) => Some msg_load_failed
                   | _ => None
                   end.
Proof.
  intros [->|[->|(text & e & -> & Hparse)]].
  - exists initialState. repeat split.
  - exists initialState. repeat split.
  - destruct text as [|c text].
    + exists initialState. repeat split.
    + exists (setError (Some msg_load_failed) initialState).
      unfold loadProductsEffect. simpl. rewrite Hparse. repeat split.
Qed.

Lemma unusable_payload_starts_empty_witness :
  exists st',
    loadProductsEffect (Return (Some (str "{oops"))) sample_parse_products
      initialState = Return st'
    /\ list_products st' = []
    /\ error st' = Some msg_load_failed.
Proof.
  apply (unusable_payload_starts_empty sample_parse_products
           (Some (str "{oops"))).
  right. right. eexists. eexists. split; reflexivity.
Defined.

(** ** Recipe suggestions *)

(** The three ways through [suggestRecipesFromIngredients] once the request
    was answered. *)
Lemma suggest_answered (API_KEY : option jsstring)
  (generateContent : GenerateContentRequest -> result jsstring)
  (JSON_parse : jsstring -> result json)
  (ingredients : list jsstring) (text : jsstring) :
  no_api_key API_KEY = false ->
  ingredients <> [] ->
  generateContent (JsonRequest (recipe_prompt ingredients)) = Return text ->
  suggestRecipesFromIngredients API_KEY generateContent JSON_parse ingredients
  = if JsString.is_empty (JsString.trim text) then Return (JArray [])
    else try_catch (JSON_parse (JsString.trim text))
                   (rethrow msg_recipes_failed).
Proof.
  intros Hkey Hne Hsvc. unfold suggestRecipesFromIngredients.
  rewrite Hkey. destruct ingredients as [|i rest]; [contradiction|].
  cbn [List.length Nat.eqb]. rewrite Hsvc. cbn [bind].
  destruct (JsString.is_empty (JsString.trim text)); reflexivity.
Qed.

(** Whatever [suggestRecipesFromIngredients] throws is an [Error] with one
    of its five messages. *)
Lemma suggestRecipesFromIngredients_throws (API_KEY : option jsstring)
  (generateContent : GenerateContentRequest -> result jsstring)
  (JSON_parse : jsstring -> result json)
  (ingredients : list jsstring) (e : thrown) :
  suggestRecipesFromIngredients API_KEY generateContent JSON_parse ingredients
  = Throw e ->
  exists m, e = ErrorObj m /\ In m suggestion_messages.
Proof.
  unfold suggestRecipesFromIngredients, suggestion_messages.
  destruct (no_api_key API_KEY).
  { fixed_message. }
  destruct (Nat.eqb (List.length ingredients) 0).
  { fixed_message. }
  assert (Hre : forall err,
             @rethrow json msg_recipes_failed err = Throw e ->
             exists m, e = ErrorObj m /\
               In m [msg_no_key; msg_no_ingredients; msg_invalid_key;
                     msg_quota; msg_recipes_failed]).
  { intros err Herr.
    destruct (rethrow_cases json msg_recipes_failed err) as (m & Hm & Hin).
    rewrite Hm in Herr. injection Herr as <-. exists m.
    split; [reflexivity|]. simpl in Hin. simpl. intuition. }
  destruct (generateContent _) as [text|err]; simpl; [|apply Hre].
  destruct (JsString.is_empty (JsString.trim text)); simpl; [discriminate|].
  destruct (JSON_parse _) as [v|err]; simpl; [discriminate|apply Hre].
Qed.

(** C6: what the code does when the service answers [quota].  The claim
    asks for the generic failure ("Failed to suggest recipes ...") whenever
    a non-empty answer cannot be parsed.  Here the answer is not empty and
    the parser rejects it, but [JSON.parse] runs inside the [try] whose
    [catch] scans every message for the markers of the service: the
    [SyntaxError] quotes the rejected text, the text contains [quota], and
    the call fails with the quota message instead of the generic one. *)
Theorem unparsable_answer_reported_as_quota :
  JsString.trim (str "quota") <> []
  /\ sample_parse (JsString.trim (str "quota"))
     = Throw (ErrorObj (unexpected_token_message (str "quota")))
  /\ suggestRecipesFromIngredients sample_key (service_returns "quota")
       sample_parse sample_ingredients
     = Throw (ErrorObj msg_quota)
  /\ suggestRecipesFromIngredients sample_key (service_returns "quota")
       sample_parse sample_ingredients
     <> Throw (ErrorObj msg_recipes_failed).
Proof. vm_compute. repeat split; discriminate. Qed.

(** Once the service has answered a request for a non-empty list of names:
    an answer that is empty after trimming gives the empty sequence and no
    error; an answer that is not empty and that the parser rejects makes
    the call fail, with the generic message whenever what the parser threw
    carries neither marker, and in every case with one of the three
    messages of the [catch] block. *)
Lemma empty_or_unparsable_answer (API_KEY : option jsstring)
  (generateContent : GenerateContentRequest -> result jsstring)
  (JSON_parse : jsstring -> result json)
  (ingredients : list jsstring) (text : jsstring) :
  no_api_key API_KEY = false ->
  ingredients <> [] ->
  generateContent (JsonRequest (recipe_prompt ingredients)) = Return text ->
  (JsString.trim text = [] ->
   suggestRecipesFromIngredients API_KEY generateContent JSON_parse ingredients
   = Return (JArray []))
  /\ (forall e, JsString.trim text <> [] ->
       JSON_parse (JsString.trim text) = Throw e ->
       (marked e = false ->
        suggestRecipesFromIngredients API_KEY generateContent JSON_parse
          ingredients = Throw (ErrorObj msg_recipes_failed))
       /\ exists m,
            suggestRecipesFromIngredients API_KEY generateContent JSON_parse
              ingredients = Throw (ErrorObj m)
            /\ In m [msg_invalid_key; msg_quota; msg_recipes_failed]).
Proof.
  intros Hkey Hne Hsvc.
  rewrite (suggest_answered API_KEY generateContent JSON_parse ingredients
             text Hkey Hne Hsvc).
  split.
  - intros ->. reflexivity.
  - intros e Htext Hparse.
    apply JsStringFacts.is_empty_false in Htext. rewrite Htext, Hparse.
    cbn [try_catch]. split.
    + destruct e as [message|]; simpl; [|reflexivity].
      intros Hm. apply orb_false_iff in Hm. destruct Hm as [H1 H2].
      rewrite H1, H2. reflexivity.
    + apply rethrow_cases.
Qed.


(** C10: for every non-empty list of names and every answer of the service
    that is not empty after trimming and that the parser accepts, the call
    returns the parsed value itself, whatever its shape: nothing checks it
    for the fields of a recipe. *)
Theorem parsed_answer_returned_as_is (API_KEY : option jsstring)
  (generateContent : GenerateContentRequest -> result jsstring)
  (JSON_parse : jsstring -> result json)
  (ingredients : list jsstring) (text : jsstring) (value : json) :
  no_api_key API_KEY = false ->
  ingredients <> [] ->
  generateContent (JsonRequest (recipe_prompt ingredients)) = Return text ->
  JsString.trim text <> [] ->
  JSON_parse (JsString.trim text) = Return value ->
  suggestRecipesFromIngredients API_KEY generateContent JSON_parse ingredients
  = Return value.
Proof.
  intros Hkey Hne Hsvc Htext Hparse.
  rewrite (suggest_answered API_KEY generateContent JSON_parse ingredients
             text Hkey Hne Hsvc).
  apply JsStringFacts.is_empty_false in Htext. rewrite Htext, Hparse.
  reflexivity.
Qed.

Lemma parsed_answer_returned_as_is_witness :
  suggestRecipesFromIngredients sample_key (service_returns " {} ") sample_parse
    sample_ingredients = Return (JObject [])
  /\ has_recipe_fields (JObject []) = false.
Proof.
  split; [|reflexivity].
  apply (parsed_answer_returned_as_is sample_key (service_returns " {} ")
           sample_parse sample_ingredients (str " {} ") (JObject []));
    try reflexivity; discriminate.
Defined.

(** ** Sessions *)

Lemma handleNameImageCapture_invariant (API_KEY : option jsstring)
  (service : GenerateContentRequest -> result jsstring)
  (imageBase64 : jsstring) (st : AppState) :
  stage_invariant (handleNameImageCapture API_KEY service imageBase64 st).
Proof.
  unfold handleNameImageCapture.
  destruct (extractTextFromImage API_KEY service imageBase64 name_prompt)
    as [text|e] eqn:E; unfold stage_invariant; simpl; [|exact I].
  apply extractTextFromImage_returns in E. tauto.
Qed.

Lemma handleExpiryImageCapture_invariant (API_KEY : option jsstring)
  (service : GenerateContentRequest -> result jsstring)
  (imageBase64 : jsstring) (st : AppState) :
  image_present (currentNameImage st) ->
  stage_invariant (handleExpiryImageCapture API_KEY service imageBase64 st).
Proof.
  intros Hname. unfold handleExpiryImageCapture.
  destruct (extractTextFromImage API_KEY service imageBase64 expiry_prompt)
    as [text|e] eqn:E; unfold stage_invariant; simpl; [|exact Hname].
  apply extractTextFromImage_returns in E. tauto.
Qed.

Lemma handleSaveProduct_invariant (uuid now : jsstring) (st : AppState) :
  stage_invariant st -> stage_invariant (handleSaveProduct uuid now st).
Proof.
  intros Hinv. unfold handleSaveProduct.
  destruct (JsString.is_empty _); [exact Hinv|].
  destruct (_ || _); [exact Hinv|]. exact I.
Qed.

(** Every state a session reaches satisfies the stage invariant. *)
Lemma reachable_stage_invariant (API_KEY : option jsstring) (st : AppState) :
  reachable API_KEY st -> stage_invariant st.
Proof.
  induction 1 as [stored warning | ev st Hreach IH Hoff].
  - exact I.
  - destruct ev; simpl.
    + exact I.
    + apply handleNameImageCapture_invariant.
    + apply handleExpiryImageCapture_invariant.
      unfold offered in Hoff. destruct (spinner_shown st); [discriminate|].
      unfold stage_invariant in IH.
      destruct (scanStage st); try discriminate. exact IH.
    + exact IH.
    + exact IH.
    + apply handleSaveProduct_invariant. exact IH.
    + exact I.
    + exact I.
    + exact IH.
    + exact IH.
Qed.

(** On every confirmation screen a session reaches, both images are there:
    the save goes through exactly when the trimmed name is not empty. *)
Lemma reachable_save_needs_name_only (API_KEY : option jsstring)
  (st : AppState) :
  reachable API_KEY st ->
  scanStage st = CONFIRM_DETAILS ->
  (save_valid st <-> JsString.trim (editedName st) <> []).
Proof.
  intros Hreach Hstage. apply reachable_stage_invariant in Hreach.
  unfold stage_invariant in Hreach. rewrite Hstage in Hreach.
  unfold save_valid. tauto.
Qed.

(** ** Scenarios *)

(** Both captures succeed and the user saves without edits: one record
    with the extracted texts and both images, stage [IDLE], session empty. *)
Example oats_session_saves_one_record :
  let st := run sample_key oats_session initialState in
  list_products st =
    [ {| id := str "id-1";
         name := str "Oats";
         expiryDate := str "2025-01-01";
         nameImageBase64 := sample_name_image;
         expiryImageBase64 := sample_expiry_image;
         scannedAt := str "2024-06-01T10:00:00.000Z" |} ]
  /\ scanStage st = IDLE
  /\ empty_session st.
Proof. vm_compute. repeat split. Qed.

(** The service refuses the name extraction for quota reasons: back to the
    name capture with the quota message, nothing saved. *)
Example quota_session_saves_nothing :
  let st := run sample_key
              [ ClickScanNewItem;
                NameCaptured sample_name_image
                  (service_throws "Resource has been exhausted (e.g. check quota).") ]
              initialState in
  scanStage st = AWAITING_NAME_IMAGE
  /\ error st = Some msg_quota
  /\ list_products st = [].
Proof. vm_compute. repeat split. Qed.

(** Without names the request is refused before the service is asked. *)
Example suggest_without_names (service : GenerateContentRequest -> result jsstring)
  (parse : jsstring -> result json) :
  suggestRecipesFromIngredients sample_key service parse []
  = Throw (ErrorObj msg_no_ingredients).
Proof. reflexivity. Qed.

(** * Further properties *)

(** ** More on strings *)

Module JsStringMore.
Import JsString.

Lemma trim_end_prefix (s : t) : exists ws, s = trim_end s ++ ws.
Proof.
  unfold trim_end.
  destruct (JsStringFacts.trim_start_suffix (rev s)) as [ws Hws].
  exists (rev ws). rewrite <- rev_app_distr, <- Hws. symmetry.
  apply rev_involutive.
Qed.

Lemma trim_end_keeps_head (s : t) :
  begins_with_space s = false -> begins_with_space (trim_end s) = false.
Proof.
  intros Hs. destruct (trim_end_prefix s) as [ws Hws].
  destruct (trim_end s) as [|c r] eqn:E; [reflexivity|].
  rewrite Hws in Hs. exact Hs.
Qed.

Lemma trim_begins_clean (s : t) : begins_with_space (trim s) = false.
Proof.
  unfold trim. apply trim_end_keeps_head. apply JsStringFacts.trim_start_clean.
Qed.

Lemma trim_idempotent (s : t) : trim (trim s) = trim s.
Proof.
  apply JsStringFacts.trim_fixed.
  - apply trim_begins_clean.
  - apply JsStringFacts.trim_ends_clean.
Qed.

Lemma starts_with_app (p s : t) : starts_with p (p ++ s) = true.
Proof.
  induction p as [|x p IH]; simpl; [reflexivity|].
  rewrite N.eqb_refl. exact IH.
Qed.

Lemma includes_here (s sub : t) :
  starts_with sub s = true -> includes s sub = true.
Proof. intros H. destruct s; simpl in *; rewrite H; reflexivity. Qed.

Lemma includes_app_r (a b sub : t) :
  includes b sub = true -> includes (a ++ b) sub = true.
Proof.
  intros H. induction a as [|x a IH]; simpl; [exact H|].
  rewrite IH. apply orb_true_r.
Qed.

Lemma starts_with_app_l (p s b : t) :
  starts_with p s = true -> starts_with p (s ++ b) = true.
Proof.
  revert s. induction p as [|x p IH]; intros [|y s] H; simpl in *;
    try reflexivity; try discriminate.
  apply andb_true_iff in H. destruct H as [H1 H2].
  rewrite H1. apply IH. exact H2.
Qed.

Lemma includes_app_l (a b sub : t) :
  includes a sub = true -> includes (a ++ b) sub = true.
Proof.
  induction a as [|x a IH]; intros H.
  - simpl in H. rewrite orb_false_r in H. destruct sub; [|discriminate].
    destruct b; reflexivity.
  - change (includes (x :: a) sub)
      with (starts_with sub (x :: a) || includes a sub) in H.
    change (includes ((x :: a) ++ b) sub)
      with (starts_with sub ((x :: a) ++ b) || includes (a ++ b) sub).
    apply orb_true_iff in H. destruct H as [H|H].
    + rewrite (starts_with_app_l sub (x :: a) b H). reflexivity.
    + rewrite (IH H). apply orb_true_r.
Qed.

(** A string includes each of its infixes. *)
Lemma includes_infix (a s b : t) : includes (a ++ s ++ b) s = true.
Proof.
  apply includes_app_r. apply includes_here. apply starts_with_app.
Qed.

Lemma includes_char (c : N) (s : t) : includes s [c] = true <-> In c s.
Proof.
  induction s as [|x s IH]; simpl.
  - split; [discriminate | tauto].
  - destruct (N.eqb_spec c x) as [->|Hne]; simpl.
    + split; auto.
    + rewrite IH. split; [auto|]. intros [H|H]; [congruence | exact H].
Qed.

Lemma includes_char_false (c : N) (s : t) :
  includes s [c] = false <-> ~ In c s.
Proof.
  rewrite <- includes_char. destruct (includes s [c]); split; congruence.
Qed.

Lemma join_cons (sep p : t) (rest : list t) :
  rest <> [] -> join sep (p :: rest) = p ++ sep ++ join sep rest.
Proof. destruct rest; [congruence | reflexivity]. Qed.

(** [parts.join(sep)] includes every part. *)
Lemma join_includes (sep p : t) (parts : list t) :
  In p parts -> includes (join sep parts) p = true.
Proof.
  induction parts as [|q parts IH]; [intros []|].
  intros Hin. destruct parts as [|q' parts].
  - destruct Hin as [->|[]]. simpl.
    rewrite <- (app_nil_r p) at 1. apply (includes_infix [] p []).
  - rewrite join_cons by discriminate. destruct Hin as [->|Hin].
    + apply (includes_infix [] p).
    + rewrite app_assoc. apply includes_app_r. apply IH. exact Hin.
Qed.

Lemma split_free (c : N) (s : t) : ~ In c s -> split c s = [s].
Proof.
  induction s as [|x s IH]; simpl; intros H; [reflexivity|].
  destruct (N.eqb_spec x c) as [->|Hne]; [exfalso; auto|].
  rewrite IH by auto. reflexivity.
Qed.

Lemma split_at_first (c : N) (p r : t) :
  ~ In c p -> split c (p ++ c :: r) = p :: split c r.
Proof.
  induction p as [|x p IH]; simpl; intros H.
  - rewrite N.eqb_refl. reflexivity.
  - destruct (N.eqb_spec x c) as [->|Hne]; [exfalso; auto|].
    rewrite IH by auto. reflexivity.
Qed.

Lemma split_head_free (c : N) (s : t) (piece : t) (rest : list t) :
  split c s = piece :: rest -> ~ In c piece.
Proof.
  revert piece rest. induction s as [|x s IH]; simpl; intros piece rest H.
  - injection H as <- <-. intros [].
  - destruct (N.eqb_spec x c) as [->|Hne].
    + injection H as <- <-. intros [].
    + destruct (split c s) as [|q qs] eqn:E.
      * injection H as <- <-. intros [Hx|[]]. congruence.
      * injection H as <- <-. intros [Hx|Hin]; [congruence|].
        exact (IH q qs eq_refl Hin).
Qed.

(** No piece of [s.split(c)] contains [c]. *)
Lemma split_pieces_free (c : N) (s : t) (piece : t) :
  In piece (split c s) -> ~ In c piece.
Proof.
  revert piece. induction s as [|x s IH]; simpl; intros piece H.
  - destruct H as [<-|[]]. intros [].
  - destruct (N.eqb_spec x c) as [->|Hne].
    + destruct H as [<-|H]; [intros []|]. apply IH. exact H.
    + destruct (split c s) as [|q qs] eqn:E.
      * destruct H as [<-|[]]. intros [Hx|[]]. congruence.
      * destruct H as [<-|H].
        -- intros [Hx|Hin]; [congruence|].
           exact (IH q (or_introl eq_refl) Hin).
        -- apply IH. right. exact H.
Qed.

Lemma indexOf_first (c : N) (p r : t) :
  ~ In c p -> indexOf c (p ++ c :: r) = Z.of_nat (List.length p).
Proof.
  induction p as [|x p IH]; intros H.
  - simpl. rewrite N.eqb_refl. reflexivity.
  - cbn [app indexOf List.length].
    destruct (N.eqb_spec x c) as [->|Hne]; [exfalso; apply H; left; reflexivity|].
    rewrite IH by (intros Hin; apply H; right; exact Hin).
    destruct (Z.ltb_spec (Z.of_nat (List.length p)) 0); lia.
Qed.

Lemma substring_middle (a m b : t) :
  substring (Z.of_nat (List.length a))
            (Z.of_nat (List.length a + List.length m)) (a ++ m ++ b) = m.
Proof.
  unfold substring. rewrite !length_app.
  set (la := List.length a). set (lm := List.length m).
  set (lb := List.length b).
  replace (Z.min (Z.max (Z.of_nat la) 0) (Z.of_nat (la + (lm + lb))))
    with (Z.of_nat la) by lia.
  replace (Z.min (Z.max (Z.of_nat (la + lm)) 0) (Z.of_nat (la + (lm + lb))))
    with (Z.of_nat (la + lm)) by lia.
  replace (Z.min (Z.of_nat la) (Z.of_nat (la + lm))) with (Z.of_nat la) by lia.
  replace (Z.max (Z.of_nat la) (Z.of_nat (la + lm)))
    with (Z.of_nat (la + lm)) by lia.
  replace (Z.to_nat (Z.of_nat (la + lm) - Z.of_nat la)) with lm by lia.
  rewrite Nat2Z.id. subst la lm.
  rewrite skipn_app, skipn_all, Nat.sub_diag. simpl.
  rewrite firstn_app, firstn_all, Nat.sub_diag. simpl.
  apply app_nil_r.
Qed.

End JsStringMore.

(** ** More on the gateway *)

Lemma data_url_not_empty (mime payload : jsstring) :
  JsString.is_empty (data_url mime payload) = false.
Proof. reflexivity. Qed.

Lemma getBase64Data_data_url (mime payload : jsstring) :
  free_of comma mime -> free_of comma payload ->
  getBase64Data (data_url mime payload) = payload.
Proof.
  intros Hm Hp. unfold getBase64Data. rewrite data_url_not_empty.
  assert (E : data_url mime payload
              = (str "data:" ++ mime ++ str ";base64") ++ comma :: payload).
  { unfold data_url. rewrite <- !app_assoc. reflexivity. }
  assert (Hpre : ~ In comma (str "data:" ++ mime ++ str ";base64")).
  { intros Hin. apply in_app_or in Hin. destruct Hin as [Hin|Hin].
    - cbv in Hin. intuition discriminate.
    - apply in_app_or in Hin. destruct Hin as [Hin|Hin]; [exact (Hm Hin)|].
      cbv in Hin. intuition discriminate. }
  assert (Hinc : JsString.includes (data_url mime payload) [comma] = true).
  { apply JsStringMore.includes_char. rewrite E. apply in_or_app. right.
    left. reflexivity. }
  rewrite Hinc. cbn [negb orb]. rewrite E.
  rewrite (JsStringMore.split_at_first comma _ payload Hpre).
  rewrite (JsStringMore.split_free comma payload Hp). reflexivity.
Qed.

Lemma getMimeType_data_url (mime payload : jsstring) :
  free_of semicolon mime ->
  getMimeType (data_url mime payload) = mime.
Proof.
  intros Hm. unfold getMimeType. rewrite data_url_not_empty.
  assert (Ec : data_url mime payload
               = str "data" ++ colon :: (mime ++ str ";base64," ++ payload)).
  { reflexivity. }
  assert (Es : data_url mime payload
               = (str "data:" ++ mime)
                 ++ semicolon :: (str "base64," ++ payload)).
  { unfold data_url. rewrite <- !app_assoc. reflexivity. }
  assert (Hc : ~ In colon (str "data")).
  { cbv. intuition discriminate. }
  assert (Hs : ~ In semicolon (str "data:" ++ mime)).
  { intros Hin. apply in_app_or in Hin. destruct Hin as [Hin|Hin].
    - cbv in Hin. intuition discriminate.
    - exact (Hm Hin). }
  assert (Hic : JsString.includes (data_url mime payload) [colon] = true).
  { apply JsStringMore.includes_char. rewrite Ec. apply in_or_app. right.
    left. reflexivity. }
  assert (His : JsString.includes (data_url mime payload) [semicolon] = true).
  { apply JsStringMore.includes_char. rewrite Es. apply in_or_app. right.
    left. reflexivity. }
  rewrite Hic, His. cbn [negb orb].
  rewrite Ec at 1. rewrite (JsStringMore.indexOf_first colon _ _ Hc).
  rewrite Es at 1. rewrite (JsStringMore.indexOf_first semicolon _ _ Hs).
  rewrite length_app.
  change (Z.of_nat (List.length (str "data")) + 1)%Z
    with (Z.of_nat (List.length (str "data:"))).
  unfold data_url.
  apply (JsStringMore.substring_middle (str "data:") mime
           (str ";base64," ++ payload)).
Qed.

(** X1: a data URL [data:<mime>;base64,<payload>] is taken apart again:
    [getMimeType] gives back the media type and [getBase64Data] the
    payload, for every media type without [;] and [,] and every payload
    without [,]. *)
Theorem data_url_taken_apart (mime payload : jsstring) :
  free_of semicolon mime -> free_of comma mime -> free_of comma payload ->
  getMimeType (data_url mime payload) = mime
  /\ getBase64Data (data_url mime payload) = payload.
Proof.
  intros Hs Hc Hp. split.
  - apply getMimeType_data_url. exact Hs.
  - apply getBase64Data_data_url; assumption.
Qed.

Lemma data_url_taken_apart_witness :
  getMimeType (data_url (str "image/jpeg") (str "AAAA")) = str "image/jpeg"
  /\ getBase64Data (data_url (str "image/jpeg") (str "AAAA")) = str "AAAA".
Proof.
  apply (data_url_taken_apart (str "image/jpeg") (str "AAAA"));
    cbv; intuition discriminate.
Defined.

Lemma getBase64Data_free (dataUrl : jsstring) :
  ~ In comma (getBase64Data dataUrl).
Proof.
  unfold getBase64Data.
  destruct (JsString.is_empty dataUrl || negb (JsString.includes dataUrl [comma]));
    [intros []|].
  destruct (JsString.split comma dataUrl) as [|a [|b rest]] eqn:E;
    simpl; try (intros []).
  apply (JsStringMore.split_pieces_free comma dataUrl). rewrite E.
  right. left. reflexivity.
Qed.

Section GatewayFacts.

Variable API_KEY : option jsstring.
Variable generateContent : GenerateContentRequest -> result jsstring.

Lemma extraction_answered (imageBase64DataUrl promptText answer : jsstring) :
  no_api_key API_KEY = false ->
  getBase64Data imageBase64DataUrl <> [] ->
  generateContent (extraction_request imageBase64DataUrl promptText)
  = Return answer ->
  extractTextFromImage API_KEY generateContent imageBase64DataUrl promptText
  = Return (JsString.trim answer).
Proof.
  intros Hkey Hdata Hsvc. unfold extractTextFromImage. rewrite Hkey.
  assert (Himg : JsString.is_empty imageBase64DataUrl = false).
  { destruct imageBase64DataUrl; [exfalso; apply Hdata; reflexivity|].
    reflexivity. }
  rewrite Himg. apply JsStringFacts.is_empty_false in Hdata. rewrite Hdata.
  unfold extraction_request in Hsvc. rewrite Hsvc. reflexivity.
Qed.

Lemma extraction_returned (imageBase64DataUrl promptText text : jsstring) :
  extractTextFromImage API_KEY generateContent imageBase64DataUrl promptText
  = Return text ->
  no_api_key API_KEY = false
  /\ getBase64Data imageBase64DataUrl <> []
  /\ exists answer,
       generateContent (extraction_request imageBase64DataUrl promptText)
       = Return answer
       /\ text = JsString.trim answer.
Proof.
  unfold extractTextFromImage, extraction_request.
  destruct (no_api_key API_KEY); [discriminate|].
  destruct (JsString.is_empty imageBase64DataUrl); [discriminate|].
  destruct (JsString.is_empty (getBase64Data imageBase64DataUrl)) eqn:Edata;
    [discriminate|].
  apply JsStringFacts.is_empty_false in Edata.
  destruct (generateContent _) as [answer|err]; simpl.
  - intros [= <-]. repeat split; try assumption. exists answer. auto.
  - intros H. destruct (rethrow_cases jsstring msg_extract_failed err)
      as (m & Hm & _). rewrite Hm in H. discriminate.
Qed.

(** X2: [extractTextFromImage] returns a text exactly when the key is
    configured, the image has a payload after its first comma, and the
    service answers the one request built from the image and the prompt;
    the text is then the trimmed answer. *)
Theorem extraction_returns_iff (imageBase64DataUrl promptText text : jsstring) :
  extractTextFromImage API_KEY generateContent imageBase64DataUrl promptText
  = Return text
  <->
  no_api_key API_KEY = false
  /\ getBase64Data imageBase64DataUrl <> []
  /\ exists answer,
       generateContent (extraction_request imageBase64DataUrl promptText)
       = Return answer
       /\ text = JsString.trim answer.
Proof.
  split.
  - apply extraction_returned.
  - intros (Hkey & Hdata & answer & Hsvc & ->).
    apply extraction_answered; assumption.
Qed.

(** X3: the text [extractTextFromImage] returns has no white space at
    either end, so trimming it again changes nothing. *)
Theorem extraction_result_trimmed (imageBase64DataUrl promptText text : jsstring) :
  extractTextFromImage API_KEY generateContent imageBase64DataUrl promptText
  = Return text ->
  JsString.begins_with_space text = false
  /\ JsString.ends_with_space text = false
  /\ JsString.trim text = text.
Proof.
  intros H. apply extraction_returned in H.
  destruct H as (_ & _ & answer & _ & ->).
  repeat split.
  - apply JsStringMore.trim_begins_clean.
  - apply JsStringFacts.trim_ends_clean.
  - apply JsStringMore.trim_idempotent.
Qed.

(** X4: an image text without a comma is refused with "Invalid image data
    URL format." once the key is configured, whatever the service would
    have answered. *)
Theorem image_without_comma_refused (imageBase64DataUrl promptText : jsstring) :
  no_api_key API_KEY = false ->
  imageBase64DataUrl <> [] ->
  free_of comma imageBase64DataUrl ->
  extractTextFromImage API_KEY generateContent imageBase64DataUrl promptText
  = Throw (ErrorObj msg_bad_url).
Proof.
  intros Hkey Hne Hfree. unfold extractTextFromImage. rewrite Hkey.
  apply JsStringFacts.is_empty_false in Hne. rewrite Hne.
  unfold getBase64Data. rewrite Hne.
  apply JsStringMore.includes_char_false in Hfree. rewrite Hfree.
  reflexivity.
Qed.

(** X5: the prompt sent for recipes names every ingredient. *)
Theorem recipe_prompt_names_all (ingredients : list jsstring) (i : jsstring) :
  In i ingredients ->
  JsString.includes (recipe_prompt ingredients) i = true.
Proof.
  intros Hin. unfold recipe_prompt. apply JsStringMore.includes_app_r.
  apply JsStringMore.includes_app_l. apply JsStringMore.join_includes.
  exact Hin.
Qed.

End GatewayFacts.

Lemma extraction_returns_iff_witness :
  extractTextFromImage sample_key (service_returns "  Oats ")
    sample_name_image name_prompt = Return (str "Oats")
  <->
  no_api_key sample_key = false
  /\ getBase64Data sample_name_image <> []
  /\ exists answer,
       service_returns "  Oats " (extraction_request sample_name_image name_prompt)
       = Return answer
       /\ str "Oats" = JsString.trim answer.
Proof.
  apply (extraction_returns_iff sample_key (service_returns "  Oats ")
           sample_name_image name_prompt (str "Oats")).
Defined.

Lemma extraction_result_trimmed_witness :
  JsString.begins_with_space (str "Oats") = false
  /\ JsString.ends_with_space (str "Oats") = false
  /\ JsString.trim (str "Oats") = str "Oats".
Proof.
  apply (extraction_result_trimmed sample_key (service_returns "  Oats ")
           sample_name_image name_prompt (str "Oats")).
  reflexivity.
Defined.

Lemma image_without_comma_refused_witness :
  extractTextFromImage sample_key (service_returns "Oats")
    (str "data:image/jpeg;base64") name_prompt
  = Throw (ErrorObj msg_bad_url).
Proof.
  apply (image_without_comma_refused sample_key (service_returns "Oats")
           (str "data:image/jpeg;base64") name_prompt).
  - reflexivity.
  - discriminate.
  - cbv. intuition discriminate.
Defined.

Lemma recipe_prompt_names_all_witness :
  JsString.includes (recipe_prompt sample_ingredients) (str "bread") = true.
Proof.
  apply (recipe_prompt_names_all sample_ingredients (str "bread")).
  simpl. right. left. reflexivity.
Defined.

(** ** More on the scan workflow *)

Lemma handleNameImageCapture_products (API_KEY : option jsstring)
  (service : GenerateContentRequest -> result jsstring)
  (imageBase64 : jsstring) (st : AppState) :
  products (handleNameImageCapture API_KEY service imageBase64 st)
  = products st.
Proof.
  unfold handleNameImageCapture.
  destruct (extractTextFromImage _ _ _ _); reflexivity.
Qed.

Lemma handleExpiryImageCapture_products (API_KEY : option jsstring)
  (service : GenerateContentRequest -> result jsstring)
  (imageBase64 : jsstring) (st : AppState) :
  products (handleExpiryImageCapture API_KEY service imageBase64 st)
  = products st.
Proof.
  unfold handleExpiryImageCapture.
  destruct (extractTextFromImage _ _ _ _); reflexivity.
Qed.

Lemma handleSaveProduct_cases (uuid now : jsstring) (st : AppState) :
  (save_valid st
   /\ products (handleSaveProduct uuid now st)
      = scanned_record uuid now (editedName st) (editedExpiry st)
          (image_data (currentNameImage st))
          (image_data (currentExpiryImage st))
        :: products st)
  \/ (~ save_valid st
      /\ products (handleSaveProduct uuid now st) = products st).
Proof.
  destruct (save_valid_dec st) as [Hv|Hinv].
  - left. split; [exact Hv|]. apply handleSaveProduct_record. exact Hv.
  - right. split; [exact Hinv|].
    destruct (JsString.is_empty (JsString.trim (editedName st))) eqn:E.
    + apply JsStringFacts.is_empty_true in E.
      rewrite (handleSaveProduct_empty_name uuid now st E). reflexivity.
    + apply JsStringFacts.is_empty_false in E.
      rewrite (handleSaveProduct_no_image uuid now st E); [reflexivity|].
      intros [Hn He]. apply Hinv. repeat split; assumption.
Qed.

Lemma scanned_record_complete (uuid now : jsstring) (st : AppState) :
  save_valid st ->
  record_complete
    (scanned_record uuid now (editedName st) (editedExpiry st)
       (image_data (currentNameImage st))
       (image_data (currentExpiryImage st))).
Proof.
  intros (Hname & Hn & He). unfold record_complete, scanned_record. simpl.
  repeat split.
  - exact Hname.
  - apply JsStringMore.trim_idempotent.
  - destruct (currentNameImage st); simpl in *; [exact Hn | contradiction].
  - destruct (currentExpiryImage st); simpl in *; [exact He | contradiction].
Qed.

(** X6: how each event changes the collection.  A save that passes its
    checks puts one record at the front, built from the trimmed edit
    fields and the two images of the session; a delete filters by
    identifier; every other event, and a refused save, leaves the
    collection exactly as it was. *)
Theorem event_changes_collection (API_KEY : option jsstring) (ev : Event)
  (st : AppState) :
  match ev with
  | ClickSaveProduct uuid now =>
      (save_valid st
       /\ products (dispatch API_KEY ev st)
          = scanned_record uuid now (editedName st) (editedExpiry st)
              (image_data (currentNameImage st))
              (image_data (currentExpiryImage st))
            :: products st)
      \/ (~ save_valid st /\ products (dispatch API_KEY ev st) = products st)
  | ClickDelete productId =>
      products (dispatch API_KEY ev st) = removeProduct productId (products st)
  | _ => products (dispatch API_KEY ev st) = products st
  end.
Proof.
  destruct ev; simpl; try reflexivity.
  - apply handleNameImageCapture_products.
  - apply handleExpiryImageCapture_products.
  - apply handleSaveProduct_cases.
Qed.

Lemma dispatch_keeps_complete (API_KEY : option jsstring) (ev : Event)
  (st : AppState) :
  Forall record_complete (products st) ->
  Forall record_complete (products (dispatch API_KEY ev st)).
Proof.
  intros Hall. destruct ev; cbn [dispatch]; try exact Hall.
  - rewrite handleNameImageCapture_products. exact Hall.
  - rewrite handleExpiryImageCapture_products. exact Hall.
  - destruct (handleSaveProduct_cases uuid now st) as [(Hv & ->)|(_ & ->)];
      [|exact Hall].
    constructor; [|exact Hall]. apply scanned_record_complete. exact Hv.
  - unfold handleDeleteProduct. rewrite setProducts_products.
    unfold removeProduct. apply Forall_forall.
    intros p Hp. apply filter_In in Hp. destruct Hp as [Hp _].
    rewrite Forall_forall in Hall. apply Hall. exact Hp.
Qed.

(** X7: sessions keep the collection well formed.  If every record has a
    trimmed non-empty name and two non-empty images before a session, so
    has every record after it, whatever the user and the service did. *)
Theorem session_keeps_records_complete (API_KEY : option jsstring)
  (evs : list Event) (st : AppState) :
  Forall record_complete (products st) ->
  Forall record_complete (products (run API_KEY evs st)).
Proof.
  revert st. induction evs as [|ev evs IH]; intros st Hall; simpl.
  - exact Hall.
  - apply IH. destruct (offered ev st); [|exact Hall].
    apply dispatch_keeps_complete. exact Hall.
Qed.

Lemma session_keeps_records_complete_witness :
  Forall record_complete (products (run sample_key oats_session initialState)).
Proof.
  apply (session_keeps_records_complete sample_key oats_session initialState).
  constructor.
Defined.

Lemma filter_filter (A : Type) (f g : A -> bool) (l : list A) :
  filter g (filter f l) = filter (fun x => f x && g x) l.
Proof.
  induction l as [|x l IH]; simpl; [reflexivity|].
  destruct (f x); simpl; [|exact IH].
  destruct (g x); simpl; rewrite IH; reflexivity.
Qed.

Lemma extractTextFromImage_no_key (API_KEY : option jsstring)
  (service : GenerateContentRequest -> result jsstring)
  (imageBase64DataUrl promptText : jsstring) :
  no_api_key API_KEY = true ->
  extractTextFromImage API_KEY service imageBase64DataUrl promptText
  = Throw (ErrorObj msg_no_key).
Proof. intros H. unfold extractTextFromImage. rewrite H. reflexivity. Qed.

Lemma no_key_step (API_KEY : option jsstring) (stored : list Product)
  (ev : Event) (st : AppState) :
  no_api_key API_KEY = true ->
  (scanStage st = IDLE \/ scanStage st = AWAITING_NAME_IMAGE) ->
  (exists keep, products st = filter keep stored) ->
  offered ev st = true ->
  (scanStage (dispatch API_KEY ev st) = IDLE
   \/ scanStage (dispatch API_KEY ev st) = AWAITING_NAME_IMAGE)
  /\ exists keep, products (dispatch API_KEY ev st) = filter keep stored.
Proof.
  intros Hkey Hstage [keep Hkeep] Hoff.
  destruct ev; simpl.
  - split; [right; reflexivity | exists keep; exact Hkeep].
  - unfold handleNameImageCapture.
    rewrite (extractTextFromImage_no_key _ _ _ _ Hkey). simpl.
    split; [right; reflexivity | exists keep; exact Hkeep].
  - exfalso. unfold offered in Hoff.
    destruct (spinner_shown st); [discriminate|].
    destruct Hstage as [H|H]; rewrite H in Hoff; discriminate.
  - exfalso. unfold offered in Hoff.
    destruct (spinner_shown st); [discriminate|].
    destruct Hstage as [H|H]; rewrite H in Hoff; discriminate.
  - exfalso. unfold offered in Hoff.
    destruct (spinner_shown st); [discriminate|].
    destruct Hstage as [H|H]; rewrite H in Hoff; discriminate.
  - exfalso. unfold offered in Hoff.
    destruct (spinner_shown st); [discriminate|].
    destruct Hstage as [H|H]; rewrite H in Hoff; discriminate.
  - exfalso. unfold offered in Hoff.
    destruct (spinner_shown st); [discriminate|].
    destruct Hstage as [H|H]; rewrite H in Hoff; discriminate.
  - split; [left; reflexivity | exists keep; exact Hkeep].
  - split; [exact Hstage|]. unfold removeProduct. rewrite Hkeep.
    rewrite filter_filter. eexists. reflexivity.
  - split; [exact Hstage | exists keep; exact Hkeep].
Qed.

Lemma no_key_run (API_KEY : option jsstring) (stored : list Product)
  (evs : list Event) (st : AppState) :
  no_api_key API_KEY = true ->
  (scanStage st = IDLE \/ scanStage st = AWAITING_NAME_IMAGE) ->
  (exists keep, products st = filter keep stored) ->
  (scanStage (run API_KEY evs st) = IDLE
   \/ scanStage (run API_KEY evs st) = AWAITING_NAME_IMAGE)
  /\ exists keep, products (run API_KEY evs st) = filter keep stored.
Proof.
  intros Hkey. revert st. induction evs as [|ev evs IH]; intros st Hs Hp; simpl.
  - split; assumption.
  - destruct (offered ev st) eqn:Hoff.
    + destruct (no_key_step API_KEY stored ev st Hkey Hs Hp Hoff) as [Hs' Hp'].
      apply IH; assumption.
    + apply IH; assumption.
Qed.

(** X8: without a configured key no scan gets past the first photo.  In
    every session from a freshly loaded page the stage stays [IDLE] or
    [AWAITING_NAME_IMAGE], nothing is ever added to the collection, and
    what is left of it are stored records in their stored order: viewing
    and deleting still work. *)
Theorem without_key_nothing_is_saved (API_KEY : option jsstring)
  (evs : list Event) (stored : list Product) (warning : option jsstring) :
  no_api_key API_KEY = true ->
  (scanStage (run API_KEY evs (loaded_state stored warning)) = IDLE
   \/ scanStage (run API_KEY evs (loaded_state stored warning))
      = AWAITING_NAME_IMAGE)
  /\ exists keep,
       products (run API_KEY evs (loaded_state stored warning))
       = filter keep stored.
Proof.
  intros Hkey. apply no_key_run.
  - exact Hkey.
  - left. reflexivity.
  - exists (fun _ => true). simpl. clear. induction stored as [|p l IH];
      simpl; [reflexivity | rewrite <- IH; reflexivity].
Qed.

Lemma without_key_nothing_is_saved_witness :
  (scanStage (run None oats_session
                (loaded_state [sample_product uuid_one "Rice"] None)) = IDLE
   \/ scanStage (run None oats_session
                   (loaded_state [sample_product uuid_one "Rice"] None))
      = AWAITING_NAME_IMAGE)
  /\ exists keep,
       products (run None oats_session
                   (loaded_state [sample_product uuid_one "Rice"] None))
       = filter keep [sample_product uuid_one "Rice"].
Proof.
  apply (without_key_nothing_is_saved None oats_session
           [sample_product uuid_one "Rice"] None).
  reflexivity.
Defined.

Lemma run_reachable (API_KEY : option jsstring) (evs : list Event)
  (st : AppState) :
  reachable API_KEY st -> reachable API_KEY (run API_KEY evs st).
Proof.
  revert st. induction evs as [|ev evs IH]; intros st Hr; simpl.
  - exact Hr.
  - apply IH. destruct (offered ev st) eqn:Hoff; [|exact Hr].
    apply reachable_step; assumption.
Qed.

Lemma handleNameImageCapture_not_loading (API_KEY : option jsstring)
  (service : GenerateContentRequest -> result jsstring)
  (imageBase64 : jsstring) (st : AppState) :
  isLoading (handleNameImageCapture API_KEY service imageBase64 st) = false.
Proof.
  unfold handleNameImageCapture.
  destruct (extractTextFromImage _ _ _ _); reflexivity.
Qed.

Lemma handleExpiryImageCapture_not_loading (API_KEY : option jsstring)
  (service : GenerateContentRequest -> result jsstring)
  (imageBase64 : jsstring) (st : AppState) :
  isLoading (handleExpiryImageCapture API_KEY service imageBase64 st) = false.
Proof.
  unfold handleExpiryImageCapture.
  destruct (extractTextFromImage _ _ _ _); reflexivity.
Qed.

Lemma handleSaveProduct_isLoading (uuid now : jsstring) (st : AppState) :
  isLoading (handleSaveProduct uuid now st) = isLoading st.
Proof.
  unfold handleSaveProduct.
  destruct (JsString.is_empty _); [reflexivity|].
  destruct (_ || _); reflexivity.
Qed.

(** X9: the spinner never stays.  In every state a session reaches,
    [isLoading] is off and the stage is none of the two processing stages,
    so the page always shows the controls of its stage. *)
Theorem reachable_never_processing (API_KEY : option jsstring) (st : AppState) :
  reachable API_KEY st ->
  isLoading st = false
  /\ spinner_shown st = false
  /\ scanStage st <> PROCESSING_NAME_IMAGE
  /\ scanStage st <> PROCESSING_EXPIRY_IMAGE.
Proof.
  intros Hr.
  assert (Hload : isLoading st = false).
  { induction Hr as [stored warning | ev st Hr IH Hoff]; [reflexivity|].
    destruct ev; cbn [dispatch]; try exact IH.
    - apply handleNameImageCapture_not_loading.
    - apply handleExpiryImageCapture_not_loading.
    - rewrite handleSaveProduct_isLoading. exact IH. }
  pose proof (reachable_stage_invariant API_KEY st Hr) as Hinv.
  unfold stage_invariant in Hinv. unfold spinner_shown. rewrite Hload.
  repeat split; intros E; rewrite E in Hinv; exact Hinv.
Qed.

Lemma reachable_never_processing_witness :
  isLoading (run sample_key retake_session (loaded_state [] None)) = false
  /\ spinner_shown (run sample_key retake_session (loaded_state [] None)) = false
  /\ scanStage (run sample_key retake_session (loaded_state [] None))
     <> PROCESSING_NAME_IMAGE
  /\ scanStage (run sample_key retake_session (loaded_state [] None))
     <> PROCESSING_EXPIRY_IMAGE.
Proof.
  apply (reachable_never_processing sample_key
           (run sample_key retake_session (loaded_state [] None))).
  apply run_reachable. apply reachable_loaded.
Defined.

(** X10: on every confirmation screen a session reaches, a save either
    goes through or is refused for the empty name; the message about
    missing images is never the answer. *)
Theorem reachable_save_refused_for_name_only (API_KEY : option jsstring)
  (uuid now : jsstring) (st : AppState) :
  reachable API_KEY st ->
  scanStage st = CONFIRM_DETAILS ->
  save_succeeded st (handleSaveProduct uuid now st)
  \/ (JsString.trim (editedName st) = []
      /\ handleSaveProduct uuid now st = setError (Some msg_empty_name) st).
Proof.
  intros Hr Hstage.
  destruct (JsString.is_empty (JsString.trim (editedName st))) eqn:E.
  - right. apply JsStringFacts.is_empty_true in E. split; [exact E|].
    apply handleSaveProduct_empty_name. exact E.
  - left. apply JsStringFacts.is_empty_false in E.
    assert (Hv : save_valid st).
    { apply (reachable_save_needs_name_only API_KEY st Hr Hstage). exact E. }
    rewrite (handleSaveProduct_valid uuid now st Hv).
    split; [reflexivity|]. simpl. unfold prependProduct. eauto.
Qed.

Lemma reachable_save_refused_for_name_only_witness :
  save_succeeded
    (run sample_key (firstn 3 oats_session) (loaded_state [] None))
    (handleSaveProduct (str "id-1") (str "2024-06-01T10:00:00.000Z")
       (run sample_key (firstn 3 oats_session) (loaded_state [] None)))
  \/ (JsString.trim
        (editedName (run sample_key (firstn 3 oats_session) (loaded_state [] None)))
      = []
      /\ handleSaveProduct (str "id-1") (str "2024-06-01T10:00:00.000Z")
           (run sample_key (firstn 3 oats_session) (loaded_state [] None))
         = setError (Some msg_empty_name)
             (run sample_key (firstn 3 oats_session) (loaded_state [] None))).
Proof.
  apply (reachable_save_refused_for_name_only sample_key (str "id-1")
           (str "2024-06-01T10:00:00.000Z")
           (run sample_key (firstn 3 oats_session) (loaded_state [] None))).
  - apply run_reachable. apply reachable_loaded.
  - reflexivity.
Defined.

Lemma handleNameImageCapture_stage (API_KEY : option jsstring)
  (service : GenerateContentRequest -> result jsstring)
  (imageBase64 : jsstring) (st : AppState) :
  scanStage (handleNameImageCapture API_KEY service imageBase64 st) <> IDLE.
Proof.
  unfold handleNameImageCapture.
  destruct (extractTextFromImage _ _ _ _); discriminate.
Qed.

Lemma handleExpiryImageCapture_stage (API_KEY : option jsstring)
  (service : GenerateContentRequest -> result jsstring)
  (imageBase64 : jsstring) (st : AppState) :
  scanStage (handleExpiryImageCapture API_KEY service imageBase64 st) <> IDLE.
Proof.
  unfold handleExpiryImageCapture.
  destruct (extractTextFromImage _ _ _ _); discriminate.
Qed.

(** X11: nothing of a scan outlives it.  Whenever a session is back at
    [IDLE], both image slots are [null] and the four texts are empty,
    whether the scan was saved or cancelled. *)
Theorem reachable_idle_holds_no_scan (API_KEY : option jsstring) (st : AppState) :
  reachable API_KEY st ->
  scanStage st = IDLE ->
  session_cleared st.
Proof.
  induction 1 as [stored warning | ev st Hr IH Hoff]; intros Hstage.
  - repeat split.
  - destruct ev; cbn [dispatch] in Hstage |- *.
    + discriminate.
    + exfalso. exact (handleNameImageCapture_stage _ _ _ _ Hstage).
    + exfalso. exact (handleExpiryImageCapture_stage _ _ _ _ Hstage).
    + unfold offered in Hoff. destruct (spinner_shown st); [discriminate|].
      change (scanStage st = IDLE) in Hstage. rewrite Hstage in Hoff.
      discriminate.
    + unfold offered in Hoff. destruct (spinner_shown st); [discriminate|].
      change (scanStage st = IDLE) in Hstage. rewrite Hstage in Hoff.
      discriminate.
    + unfold offered in Hoff. destruct (spinner_shown st); [discriminate|].
      destruct (scanStage st) eqn:Es; try discriminate.
      unfold handleSaveProduct in *.
      destruct (JsString.is_empty _); [simpl in Hstage; congruence|].
      destruct (_ || _); [simpl in Hstage; congruence|].
      repeat split.
    + discriminate.
    + repeat split.
    + apply IH. exact Hstage.
    + apply IH. exact Hstage.
Qed.

Lemma reachable_idle_holds_no_scan_witness :
  session_cleared (run sample_key oats_session (loaded_state [] None)).
Proof.
  apply (reachable_idle_holds_no_scan sample_key
           (run sample_key oats_session (loaded_state [] None))).
  - apply run_reachable. apply reachable_loaded.
  - reflexivity.
Defined.


Section TwoCaptures.

Variable API_KEY : option jsstring.
Variables nameImage expiryImage nameAnswer expiryAnswer : jsstring.
Variables nameService expiryService : GenerateContentRequest -> result jsstring.

Hypothesis key_configured : no_api_key API_KEY = false.
Hypothesis name_payload : getBase64Data nameImage <> [].
Hypothesis expiry_payload : getBase64Data expiryImage <> [].
Hypothesis name_answered :
  nameService (extraction_request nameImage name_prompt) = Return nameAnswer.
Hypothesis expiry_answered :
  expiryService (extraction_request expiryImage expiry_prompt)
  = Return expiryAnswer.

Lemma name_extracted :
  extractTextFromImage API_KEY nameService nameImage name_prompt
  = Return (JsString.trim nameAnswer).
Proof. apply extraction_answered; assumption. Qed.

Lemma expiry_extracted :
  extractTextFromImage API_KEY expiryService expiryImage expiry_prompt
  = Return (JsString.trim expiryAnswer).
Proof. apply extraction_answered; assumption. Qed.

Lemma payload_not_empty (image : jsstring) :
  getBase64Data image <> [] -> image <> [].
Proof. intros H ->. apply H. reflexivity. Qed.

(** The confirmation screen two answered captures lead to. *)
Lemma two_captures_reach_confirmation (st : AppState) :
  scanStage st = IDLE ->
  run API_KEY
    [ ClickScanNewItem;
      NameCaptured nameImage nameService;
      ExpiryCaptured expiryImage expiryService ] st
  = {| scanStage := CONFIRM_DETAILS;
       products := products st;
       currentNameImage := Some nameImage;
       currentExpiryImage := Some expiryImage;
       extractedName := JsString.trim nameAnswer;
       editedName := JsString.trim nameAnswer;
       extractedExpiry := JsString.trim expiryAnswer;
       editedExpiry := JsString.trim expiryAnswer;
       isLoading := false;
       error := None |}.
Proof.
  intros Hidle. cbn [run].
  assert (O1 : offered ClickScanNewItem st = true).
  { unfold offered, spinner_shown. rewrite Hidle, andb_false_r. reflexivity. }
  rewrite O1. cbn [dispatch].
  assert (O2 : offered (NameCaptured nameImage nameService) (handleStartScan st)
               = true).
  { unfold offered, spinner_shown. simpl. rewrite andb_false_r. reflexivity. }
  rewrite O2. unfold handleNameImageCapture. rewrite name_extracted.
  assert (O3 : forall s,
             scanStage s = AWAITING_EXPIRY_IMAGE -> isLoading s = false ->
             offered (ExpiryCaptured expiryImage expiryService) s = true).
  { intros s Hs Hl. unfold offered, spinner_shown. rewrite Hs, Hl. reflexivity. }
  rewrite O3 by reflexivity.
  unfold handleExpiryImageCapture. rewrite expiry_extracted. reflexivity.
Qed.



(** X14: what the user typed wins.  When both edit fields are overwritten
    on the confirmation screen, the saved record holds the trimmed typed
    texts, whatever the service had answered. *)
Theorem edited_scan_saves_typed_texts (uuid now typedName typedExpiry : jsstring)
  (st : AppState) :
  scanStage st = IDLE ->
  JsString.trim typedName <> [] ->
  products
    (run API_KEY
       [ ClickScanNewItem;
         NameCaptured nameImage nameService;
         ExpiryCaptured expiryImage expiryService;
         TypeName typedName;
         TypeExpiry typedExpiry;
         ClickSaveProduct uuid now ] st)
  = scanned_record uuid now typedName typedExpiry nameImage expiryImage
    :: products st.
Proof.
  intros Hidle Hname.
  change [ClickScanNewItem; NameCaptured nameImage nameService;
          ExpiryCaptured expiryImage expiryService; TypeName typedName;
          TypeExpiry typedExpiry; ClickSaveProduct uuid now]
    with ([ClickScanNewItem; NameCaptured nameImage nameService;
           ExpiryCaptured expiryImage expiryService]
          ++ [TypeName typedName; TypeExpiry typedExpiry;
              ClickSaveProduct uuid now]).
  assert (Happ : forall a b s, run API_KEY (a ++ b) s
                               = run API_KEY b (run API_KEY a s)).
  { induction a as [|e a IH]; intros b s; simpl; [reflexivity | apply IH]. }
  rewrite Happ, (two_captures_reach_confirmation st Hidle).
  assert (Hstep : forall ev evs s,
             offered ev s = true ->
             run API_KEY (ev :: evs) s = run API_KEY evs (dispatch API_KEY ev s)).
  { intros ev evs s H. cbn [run]. rewrite H. reflexivity. }
  rewrite Hstep by reflexivity. cbn [dispatch].
  rewrite Hstep by reflexivity. cbn [dispatch].
  rewrite Hstep by reflexivity. cbn [dispatch run].
  unfold handleSaveProduct. cbn -[JsString.trim JsString.is_empty].
  apply JsStringFacts.is_empty_false in Hname. rewrite Hname.
  pose proof (payload_not_empty nameImage name_payload) as Hn.
  pose proof (payload_not_empty expiryImage expiry_payload) as He.
  apply JsStringFacts.is_empty_false in Hn, He. rewrite Hn, He.
  reflexivity.
Qed.

(** X15: a blank name answer still reaches the confirmation screen, and
    the save is then refused for the empty name until the user types one:
    the collection is unchanged and the stage stays [CONFIRM_DETAILS]. *)
Theorem blank_name_answer_needs_typing (uuid now : jsstring) (st : AppState) :
  scanStage st = IDLE ->
  JsString.trim nameAnswer = [] ->
  products
    (run API_KEY
       [ ClickScanNewItem;
         NameCaptured nameImage nameService;
         ExpiryCaptured expiryImage expiryService;
         ClickSaveProduct uuid now ] st) = products st
  /\ scanStage
       (run API_KEY
          [ ClickScanNewItem;
            NameCaptured nameImage nameService;
            ExpiryCaptured expiryImage expiryService;
            ClickSaveProduct uuid now ] st) = CONFIRM_DETAILS
  /\ error
       (run API_KEY
          [ ClickScanNewItem;
            NameCaptured nameImage nameService;
            ExpiryCaptured expiryImage expiryService;
            ClickSaveProduct uuid now ] st) = Some msg_empty_name.
Proof.
  intros Hidle Hblank.
  change [ClickScanNewItem; NameCaptured nameImage nameService;
          ExpiryCaptured expiryImage expiryService; ClickSaveProduct uuid now]
    with ([ClickScanNewItem; NameCaptured nameImage nameService;
           ExpiryCaptured expiryImage expiryService]
          ++ [ClickSaveProduct uuid now]).
  assert (Happ : forall a b s, run API_KEY (a ++ b) s
                               = run API_KEY b (run API_KEY a s)).
  { induction a as [|e a IH]; intros b s; simpl; [reflexivity | apply IH]. }
  rewrite Happ, (two_captures_reach_confirmation st Hidle).
  cbn [run]. unfold offered, spinner_shown. cbn [isLoading scanStage andb].
  cbn [dispatch]. unfold handleSaveProduct. cbn [editedName].
  rewrite JsStringMore.trim_idempotent, Hblank. repeat split.
Qed.

(** X16: "Retake All" followed by two answered captures leaves exactly the
    confirmation screen a fresh scan with the same captures leaves:
    whatever the abandoned attempt left in the session (images, texts,
    error) is overwritten before anything can be saved. *)
Theorem retake_then_captures_overwrite (st : AppState) :
  scanStage st = CONFIRM_DETAILS ->
  isLoading st = false ->
  run API_KEY
    [ ClickRetakeAll;
      NameCaptured nameImage nameService;
      ExpiryCaptured expiryImage expiryService ] st
  = run API_KEY
      [ ClickScanNewItem;
        NameCaptured nameImage nameService;
        ExpiryCaptured expiryImage expiryService ]
      (handleCancelScan st).
Proof.
  intros Hstage Hload.
  rewrite (two_captures_reach_confirmation (handleCancelScan st))
    by reflexivity.
  assert (Hstep : forall ev evs s,
             offered ev s = true ->
             run API_KEY (ev :: evs) s = run API_KEY evs (dispatch API_KEY ev s)).
  { intros ev evs s H. cbn [run]. rewrite H. reflexivity. }
  rewrite Hstep
    by (unfold offered, spinner_shown; rewrite Hstage, Hload; reflexivity).
  cbn [dispatch].
  rewrite Hstep
    by (unfold offered, spinner_shown; simpl; rewrite Hload; reflexivity).
  cbn [dispatch]. unfold handleNameImageCapture. rewrite name_extracted.
  rewrite Hstep by reflexivity.
  cbn [dispatch run]. unfold handleExpiryImageCapture.
  rewrite expiry_extracted. reflexivity.
Qed.

End TwoCaptures.


Lemma edited_scan_saves_typed_texts_witness :
  products
    (run sample_key
       [ ClickScanNewItem;
         NameCaptured sample_name_image (service_returns "0ats");
         ExpiryCaptured sample_expiry_image (service_returns "");
         TypeName (str "Oats ");
         TypeExpiry (str "best before 03/2025");
         ClickSaveProduct (str "id-1") (str "2024-06-01T10:00:00.000Z") ]
       initialState)
  = [scanned_record (str "id-1") (str "2024-06-01T10:00:00.000Z")
       (str "Oats ") (str "best before 03/2025")
       sample_name_image sample_expiry_image].
Proof.
  apply (edited_scan_saves_typed_texts sample_key sample_name_image
           sample_expiry_image (str "0ats") (str "")
           (service_returns "0ats") (service_returns ""));
    try reflexivity; discriminate.
Defined.

Lemma blank_name_answer_needs_typing_witness :
  products
    (run sample_key
       [ ClickScanNewItem;
         NameCaptured sample_name_image (service_returns "  ");
         ExpiryCaptured sample_expiry_image (service_returns "2025-01-01");
         ClickSaveProduct (str "id-1") (str "2024-06-01T10:00:00.000Z") ]
       initialState) = products initialState
  /\ scanStage
       (run sample_key
          [ ClickScanNewItem;
            NameCaptured sample_name_image (service_returns "  ");
            ExpiryCaptured sample_expiry_image (service_returns "2025-01-01");
            ClickSaveProduct (str "id-1") (str "2024-06-01T10:00:00.000Z") ]
          initialState) = CONFIRM_DETAILS
  /\ error
       (run sample_key
          [ ClickScanNewItem;
            NameCaptured sample_name_image (service_returns "  ");
            ExpiryCaptured sample_expiry_image (service_returns "2025-01-01");
            ClickSaveProduct (str "id-1") (str "2024-06-01T10:00:00.000Z") ]
          initialState) = Some msg_empty_name.
Proof.
  apply (blank_name_answer_needs_typing sample_key sample_name_image
           sample_expiry_image (str "  ") (str "2025-01-01")
           (service_returns "  ") (service_returns "2025-01-01"));
    try reflexivity; discriminate.
Defined.

Lemma retake_then_captures_overwrite_witness :
  run sample_key
    [ ClickRetakeAll;
      NameCaptured sample_name_image (service_returns "Rice");
      ExpiryCaptured sample_expiry_image (service_returns "2026-02-02") ]
    (confirm_state (str "Oats") (str "2025-01-01"))
  = run sample_key
      [ ClickScanNewItem;
        NameCaptured sample_name_image (service_returns "Rice");
        ExpiryCaptured sample_expiry_image (service_returns "2026-02-02") ]
      (handleCancelScan (confirm_state (str "Oats") (str "2025-01-01"))).
Proof.
  apply (retake_then_captures_overwrite sample_key sample_name_image
           sample_expiry_image (str "Rice") (str "2026-02-02")
           (service_returns "Rice") (service_returns "2026-02-02"));
    try reflexivity; discriminate.
Defined.

(** ** Saving and removing *)





(** C7: a save followed by the removal of the saved record gives back the
    collection as it was.  For every collection and every record a save
    builds, with the fresh identifier [crypto.randomUUID()] drew for it
    (no stored record carries it), the save puts the record at the front
    and the delete of its identifier leaves the collection equal, in
    order and contents, to the one before the save. *)
Theorem save_then_delete_restores (uuid now : jsstring) (st : AppState) :
  save_valid st ->
  ~ In uuid (map id (list_products st)) ->
  (exists record,
     id record = uuid
     /\ list_products (handleSaveProduct uuid now st)
        = record :: list_products st)
  /\ list_products (handleDeleteProduct uuid (handleSaveProduct uuid now st))
     = list_products st.
Proof.
  intros Hv Hfresh. unfold list_products in *.
  pose proof (handleSaveProduct_record uuid now st Hv) as Hsave.
  split.
  - eexists. split; [|exact Hsave]. reflexivity.
  - unfold handleDeleteProduct. rewrite setProducts_products, Hsave.
    unfold removeProduct at 1. cbn [filter id].
    rewrite JsStringFacts.eqb_refl. cbn [negb].
    apply removeProduct_fresh. exact Hfresh.
Qed.

Lemma save_then_delete_restores_witness :
  (exists record,
     id record = str uuid_two
     /\ list_products
          (handleSaveProduct (str uuid_two) (str "2024-06-01T10:00:00.000Z")
             (setProducts (fun _ => [sample_product uuid_one "Salt"])
                (confirm_state (str "Oats") (str "2025-01-01"))))
        = record :: [sample_product uuid_one "Salt"])
  /\ list_products
       (handleDeleteProduct (str uuid_two)
          (handleSaveProduct (str uuid_two) (str "2024-06-01T10:00:00.000Z")
             (setProducts (fun _ => [sample_product uuid_one "Salt"])
                (confirm_state (str "Oats") (str "2025-01-01")))))
     = [sample_product uuid_one "Salt"].
Proof.
  apply (save_then_delete_restores (str uuid_two)
           (str "2024-06-01T10:00:00.000Z")
           (setProducts (fun _ => [sample_product uuid_one "Salt"])
              (confirm_state (str "Oats") (str "2025-01-01")))).
  - repeat split; discriminate.
  - simpl. intros [H|[]]. discriminate H.
Defined.

(** ** A failed name extraction *)

(** C3: a failed extraction of the name image.  From the session as it is
    while the image is processed (stage [PROCESSING_NAME_IMAGE], the
    captured image already stored), every failure of the extraction
    leaves the image slots and the four texts exactly as they are: the
    session retains nothing new from the failed attempt.  A non-empty
    error message is attached, the stage returns to
    [AWAITING_NAME_IMAGE], never to [IDLE], and the expiry image captured
    before, like the collection, is untouched. *)
Theorem failed_name_extraction_retains_nothing_new
  (API_KEY : option jsstring)
  (generateContent : GenerateContentRequest -> result jsstring)
  (imageBase64 : jsstring) (st : AppState) (e : thrown) :
  extractTextFromImage API_KEY generateContent imageBase64 name_prompt
  = Throw e ->
  scanStage (handleNameImageCapture_begin imageBase64 st)
  = PROCESSING_NAME_IMAGE
  /\ handleNameImageCapture API_KEY generateContent imageBase64 st
     = handleNameImageCapture_settle (Throw e)
         (handleNameImageCapture_begin imageBase64 st)
  /\ retains_nothing_new (handleNameImageCapture_begin imageBase64 st)
       (handleNameImageCapture API_KEY generateContent imageBase64 st)
  /\ (exists message,
        error (handleNameImageCapture API_KEY generateContent imageBase64 st)
        = Some message
        /\ message <> [])
  /\ scanStage (handleNameImageCapture API_KEY generateContent imageBase64 st)
     = AWAITING_NAME_IMAGE
  /\ scanStage (handleNameImageCapture API_KEY generateContent imageBase64 st)
     <> IDLE
  /\ currentExpiryImage
       (handleNameImageCapture API_KEY generateContent imageBase64 st)
     = currentExpiryImage st
  /\ products (handleNameImageCapture API_KEY generateContent imageBase64 st)
     = products st.
Proof.
  intros Hthrow.
  destruct (extractTextFromImage_throws _ _ _ _ _ Hthrow) as (m & -> & Hin).
  unfold handleNameImageCapture. rewrite Hthrow.
  split; [reflexivity|]. split; [reflexivity|].
  split; [repeat split|].
  split.
  - exists m. split; [reflexivity|].
    apply extraction_messages_nonempty. exact Hin.
  - repeat split. discriminate.
Qed.

Lemma failed_name_extraction_retains_nothing_new_witness :
  retains_nothing_new
    (handleNameImageCapture_begin sample_name_image
       (run sample_key retake_session initialState))
    (handleNameImageCapture sample_key (service_throws "quota exceeded")
       sample_name_image (run sample_key retake_session initialState))
  /\ scanStage
       (handleNameImageCapture sample_key (service_throws "quota exceeded")
          sample_name_image (run sample_key retake_session initialState))
     = AWAITING_NAME_IMAGE
  /\ currentExpiryImage
       (handleNameImageCapture sample_key (service_throws "quota exceeded")
          sample_name_image (run sample_key retake_session initialState))
     = Some sample_expiry_image.
Proof.
  destruct (failed_name_extraction_retains_nothing_new sample_key
              (service_throws "quota exceeded") sample_name_image
              (run sample_key retake_session initialState)
              (ErrorObj msg_quota) eq_refl)
    as (_ & _ & Hnew & _ & Hstage & _ & Hexp & _).
  split; [exact Hnew|]. split; [exact Hstage|]. exact Hexp.
Defined.

(** ** More on the inventory *)

Lemma removeProduct_In (productId : jsstring) (ps : list Product) (p : Product) :
  In p (removeProduct productId ps) <-> In p ps /\ id p <> productId.
Proof.
  unfold removeProduct. rewrite filter_In. split.
  - intros [Hin Hb]. split; [exact Hin|].
    apply negb_true_iff in Hb. apply JsStringFacts.eqb_neq. exact Hb.
  - intros [Hin Hne]. split; [exact Hin|].
    apply negb_true_iff. apply JsStringFacts.eqb_neq. exact Hne.
Qed.

Lemma setProducts_same (st : AppState) (ps : list Product) :
  ps = products st -> setProducts (fun _ => ps) st = st.
Proof. intros ->. destruct st. reflexivity. Qed.

(** X17: what a delete does.  Afterwards the collection holds exactly the
    records with another identifier (all records that share the deleted
    identifier go at once); deleting again changes nothing; two deletes
    commute; and the scan session is not touched. *)
Theorem delete_removes_every_match (a b : jsstring) (st : AppState) :
  (forall p, In p (products (handleDeleteProduct a st))
             <-> In p (products st) /\ id p <> a)
  /\ handleDeleteProduct a (handleDeleteProduct a st) = handleDeleteProduct a st
  /\ handleDeleteProduct a (handleDeleteProduct b st)
     = handleDeleteProduct b (handleDeleteProduct a st)
  /\ scanStage (handleDeleteProduct a st) = scanStage st
  /\ retains_nothing_new st (handleDeleteProduct a st).
Proof.
  split; [|split; [|split; [|split]]].
  - intros p. apply removeProduct_In.
  - unfold handleDeleteProduct, setProducts. simpl. f_equal.
    unfold removeProduct. rewrite filter_filter. apply filter_ext.
    intros p. apply andb_diag.
  - unfold handleDeleteProduct, setProducts. simpl. f_equal.
    unfold removeProduct. rewrite !filter_filter. apply filter_ext.
    intros p. apply andb_comm.
  - reflexivity.
  - repeat split.
Qed.

(** X18: deleting an identifier no record carries is a no-op on the whole
    state. *)
Theorem delete_absent_is_noop (productId : jsstring) (st : AppState) :
  ~ In productId (map id (products st)) ->
  handleDeleteProduct productId st = st.
Proof.
  intros H. unfold handleDeleteProduct.
  assert (E : removeProduct productId (products st) = products st)
    by (apply removeProduct_fresh; exact H).
  destruct st. unfold setProducts. simpl in *. rewrite E. reflexivity.
Qed.

Lemma delete_absent_is_noop_witness :
  handleDeleteProduct (str uuid_two)
    (loaded_state [sample_product uuid_one "Oats"] None)
  = loaded_state [sample_product uuid_one "Oats"] None.
Proof.
  apply (delete_absent_is_noop (str uuid_two)
           (loaded_state [sample_product uuid_one "Oats"] None)).
  simpl. intros [H|[]]. discriminate H.
Defined.

(** ** More on loading and saving *)

(** X19: a failed write does not lose a saved record.  When a save went
    through and the write of the save effect that follows throws, the
    effect still ends normally: the new record stays at the front of the
    collection, the stage is [IDLE], and the warning "Could not save
    products. ..." is set and shown by the page banner. *)
Theorem failed_write_keeps_saved_record (stringify : list Product -> jsstring)
  (setItem : jsstring -> result unit) (uuid now : jsstring) (st : AppState)
  (e : thrown) :
  save_valid st ->
  setItem (stringify (products (handleSaveProduct uuid now st))) = Throw e ->
  exists st',
    saveProductsEffect stringify setItem (handleSaveProduct uuid now st)
    = Return st'
    /\ products st'
       = scanned_record uuid now (editedName st) (editedExpiry st)
           (image_data (currentNameImage st))
           (image_data (currentExpiryImage st))
         :: products st
    /\ scanStage st' = IDLE
    /\ error st' = Some msg_save_failed
    /\ offered ClickDismiss st' = true.
Proof.
  intros Hv Hthrow. unfold saveProductsEffect. rewrite Hthrow.
  cbn [bind try_catch]. eexists. split; [reflexivity|].
  rewrite (handleSaveProduct_valid uuid now st Hv). repeat split.
Qed.

Lemma failed_write_keeps_saved_record_witness :
  exists st',
    saveProductsEffect sample_stringify
      (fun _ => Throw (ErrorObj (str "QuotaExceededError")))
      (handleSaveProduct (str "id-1") (str "2024-06-01T10:00:00.000Z")
         (confirm_state (str "Oats") (str "2025-01-01")))
    = Return st'
    /\ products st'
       = scanned_record (str "id-1") (str "2024-06-01T10:00:00.000Z")
           (str "Oats") (str "2025-01-01") sample_name_image sample_expiry_image
         :: []
    /\ scanStage st' = IDLE
    /\ error st' = Some msg_save_failed
    /\ offered ClickDismiss st' = true.
Proof.
  apply (failed_write_keeps_saved_record sample_stringify
           (fun _ => Throw (ErrorObj (str "QuotaExceededError")))
           (str "id-1") (str "2024-06-01T10:00:00.000Z")
           (confirm_state (str "Oats") (str "2025-01-01"))
           (ErrorObj (str "QuotaExceededError"))).
  - repeat split; discriminate.
  - reflexivity.
Defined.

(** A storage that cannot even be read is survived: when [getItem]
    itself throws, or the stored text is rejected by the parser, the load
    effect ends normally, leaves the collection and the scan session
    alone and sets "Could not load saved products."; a text the parser
    accepts replaces the collection and sets no warning. *)
Lemma load_effect_outcomes (getItem : result (option jsstring))
  (parse : jsstring -> result (list Product)) (st : AppState) :
  exists st',
    loadProductsEffect getItem parse st = Return st'
    /\ scanStage st' = scanStage st
    /\ retains_nothing_new st st'
    /\ match getItem with
       | Throw _ => products st' = products st
                    /\ error st' = Some msg_load_failed
       | Return None => st' = st
       | Return (Some text) =>
           if JsString.is_empty text then st' = st
           else match parse text with
                | Return parsed => products st' = parsed
                                   /\ error st' = error st
                | Throw _ => products st' = products st
                             /\ error st' = Some msg_load_failed
                end
       end.
Proof.
  unfold loadProductsEffect.
  destruct getItem as [[text|]|e]; cbn [bind try_catch].
  - destruct (JsString.is_empty text).
    + exists st. repeat split.
    + destruct (parse text) as [parsed|e]; cbn [bind try_catch];
        eexists; repeat split.
  - exists st. repeat split.
  - eexists. repeat split.
Qed.

(** ** The recipe dialog *)

Lemma suggest_throws_with_names (API_KEY : option jsstring)
  (generateContent : GenerateContentRequest -> result jsstring)
  (JSON_parse : jsstring -> result json)
  (ingredients : list jsstring) (e : thrown) :
  ingredients <> [] ->
  suggestRecipesFromIngredients API_KEY generateContent JSON_parse ingredients
  = Throw e ->
  exists m, e = ErrorObj m
            /\ In m [msg_no_key; msg_invalid_key; msg_quota; msg_recipes_failed].
Proof.
  intros Hne. unfold suggestRecipesFromIngredients.
  destruct (no_api_key API_KEY).
  { intros [= <-]. eexists. split; [reflexivity | simpl; auto]. }
  destruct ingredients as [|i rest]; [contradiction|]. cbn [List.length Nat.eqb].
  assert (Hre : forall err,
             @rethrow json msg_recipes_failed err = Throw e ->
             exists m, e = ErrorObj m /\
               In m [msg_no_key; msg_invalid_key; msg_quota; msg_recipes_failed]).
  { intros err Herr.
    destruct (rethrow_cases json msg_recipes_failed err) as (m & Hm & Hin).
    rewrite Hm in Herr. injection Herr as <-. exists m.
    split; [reflexivity|]. simpl in Hin. simpl. intuition. }
  destruct (generateContent _) as [text|err]; simpl; [|apply Hre].
  destruct (JsString.is_empty (JsString.trim text)); simpl; [discriminate|].
  destruct (JSON_parse _) as [v|err]; simpl; [discriminate|apply Hre].
Qed.

Lemma as_recipe_list_length (items : list json) (typed : list Recipe) :
  as_recipe_list items = Some typed ->
  List.length typed = List.length items.
Proof.
  revert typed. induction items as [|v items IH]; intros typed; simpl.
  - intros [= <-]. reflexivity.
  - destruct (as_recipe v); [|discriminate].
    destruct (as_recipe_list items) as [rest|]; [|discriminate].
    intros [= <-]. simpl. f_equal. apply IH. reflexivity.
Qed.

Section SuggestFacts.

Variable API_KEY : option jsstring.
Variable generateContent : GenerateContentRequest -> result jsstring.
Variable JSON_parse : jsstring -> result json.
Variable object_length_positive : list (jsstring * json) -> bool.

(** The two ways a request on a non-empty collection ends; the dialog is
    open unless the user closed it while the request was pending. *)
Lemma handleSuggestRecipes_cases (closed : bool) (st : AppState)
  (rs : RecipeState) :
  products st <> [] ->
  (exists v,
     has_positive_length object_length_positive v = true
     /\ handleSuggestRecipes API_KEY generateContent JSON_parse
          object_length_positive closed st rs
        = (st, {| isFetchingRecipes := false; recipes := v;
                  recipeError := None; isRecipeModalOpen := negb closed |}))
  \/ (exists m,
        In m [msg_no_recipes; msg_no_key; msg_invalid_key; msg_quota;
              msg_recipes_failed]
        /\ handleSuggestRecipes API_KEY generateContent JSON_parse
             object_length_positive closed st rs
           = (st, {| isFetchingRecipes := false; recipes := JArray [];
                     recipeError := Some m;
                     isRecipeModalOpen := negb closed |})).
Proof.
  intros Hne. unfold handleSuggestRecipes.
  destruct (products st) as [|p ps] eqn:Eps; [contradiction|].
  cbn [List.length Nat.eqb].
  destruct (suggestRecipesFromIngredients API_KEY generateContent JSON_parse
              (map name (p :: ps))) as [v|e] eqn:E;
    unfold handleSuggestRecipes_settle.
  - destruct (has_positive_length object_length_positive v) eqn:Hv.
    + left. exists v. split; [exact Hv | destruct closed; reflexivity].
    + right. exists msg_no_recipes.
      split; [simpl; auto | destruct closed; reflexivity].
  - apply suggest_throws_with_names in E; [|discriminate].
    destruct E as (m & -> & Hin). right. exists m.
    split; [|destruct closed; reflexivity]. simpl in Hin. simpl. intuition.
Qed.


(** With an empty collection nothing is requested: the dialog state is
    untouched and the page gets the hint to add items first. *)
Lemma recipe_request_needs_items (closed : bool) (st : AppState)
  (rs : RecipeState) :
  products st = [] ->
  handleSuggestRecipes API_KEY generateContent JSON_parse
    object_length_positive closed st rs
  = (setError (Some msg_pantry_empty) st, rs).
Proof. intros H. unfold handleSuggestRecipes. rewrite H. reflexivity. Qed.

End SuggestFacts.


(** X22: the dialog shows one thing at a time.  On props of its declared
    types, [RecipeModal] when open renders exactly one of its four panels,
    for every combination of the props; when closed it renders nothing. *)
Theorem modal_shows_one_panel (recipes : list Recipe) (isLoading : bool)
  (error : option jsstring) :
  RecipeModal false recipes isLoading error = None
  /\ exists panel,
       RecipeModal true recipes isLoading error = Some [panel]
       /\ panel = (if isLoading then LoadingPanel
                   else if message_set error
                   then ErrorPanel (match error with Some m => m | None => [] end)
                   else match recipes with
                        | [] => EmptyPanel
                        | _ :: _ => RecipesPanel recipes
                        end).
Proof.
  split; [reflexivity|]. unfold RecipeModal, message_set. cbn [negb].
  destruct isLoading; cbn [negb andb].
  - destruct error as [m|]; [destruct (JsString.is_empty m)|];
      cbn [negb andb app]; eexists; split; reflexivity.
  - destruct error as [m|]; [destruct (JsString.is_empty m)|];
      cbn [negb andb app]; destruct recipes as [|r rest];
      cbn [List.length Nat.eqb negb app]; eexists; split; reflexivity.
Qed.

(** X23: after a recipe request on a non-empty collection, whenever what
    is stored reads as a list of recipes (an array of objects with a
    string name, an array of string ingredients and a string of
    instructions), the dialog renders nothing if the user closed it
    meanwhile, and otherwise shows either these recipes, at least one, or
    an error: never the "No recipes found." panel. *)
Theorem after_request_modal_never_empty (API_KEY : option jsstring)
  (generateContent : GenerateContentRequest -> result jsstring)
  (JSON_parse : jsstring -> result json)
  (object_length_positive : list (jsstring * json) -> bool)
  (closed : bool) (st : AppState) (rs : RecipeState) (typed : list Recipe) :
  products st <> [] ->
  as_recipes
    (recipes (snd (handleSuggestRecipes API_KEY generateContent JSON_parse
                     object_length_positive closed st rs))) = Some typed ->
  RecipeModal
    (isRecipeModalOpen
       (snd (handleSuggestRecipes API_KEY generateContent JSON_parse
               object_length_positive closed st rs)))
    typed
    (isFetchingRecipes
       (snd (handleSuggestRecipes API_KEY generateContent JSON_parse
               object_length_positive closed st rs)))
    (recipeError
       (snd (handleSuggestRecipes API_KEY generateContent JSON_parse
               object_length_positive closed st rs)))
  = (if closed then None
     else match recipeError
                  (snd (handleSuggestRecipes API_KEY generateContent JSON_parse
                          object_length_positive closed st rs)) with
          | Some m => Some [ErrorPanel m]
          | None => Some [RecipesPanel typed]
          end)
  /\ (recipeError
        (snd (handleSuggestRecipes API_KEY generateContent JSON_parse
                object_length_positive closed st rs)) = None ->
      typed <> []).
Proof.
  intros Hne.
  destruct (handleSuggestRecipes_cases API_KEY generateContent JSON_parse
              object_length_positive closed st rs Hne)
    as [(v & Hv & ->) | (m & Hin & ->)]; cbn [fst snd isFetchingRecipes
      isRecipeModalOpen recipeError recipes]; intros Htyped.
  - assert (Hnonempty : typed <> []).
    { destruct v as [| | | |items|]; simpl in Htyped; try discriminate.
      apply as_recipe_list_length in Htyped. simpl in Hv.
      intros ->. simpl in Htyped. rewrite <- Htyped in Hv. discriminate. }
    split; [|intros _; exact Hnonempty].
    destruct closed; [reflexivity|].
    destruct typed as [|r rest]; [contradiction|]. reflexivity.
  - split; [|discriminate].
    destruct closed; [reflexivity|].
    assert (Hm : JsString.is_empty m = false).
    { simpl in Hin.
      destruct Hin as [H|[H|[H|[H|[H|[]]]]]]; subst m; reflexivity. }
    unfold RecipeModal. cbn [negb andb]. rewrite Hm. cbn [negb andb].
    unfold message_set. rewrite Hm. cbn [negb andb app]. reflexivity.
Qed.

Lemma after_request_modal_never_empty_witness :
  RecipeModal true
    [ {| recipeName := str "Toast";
         ingredients := [str "2 slices bread"];
         instructions := str "Toast the bread." |} ]
    false None
  = Some [ RecipesPanel
             [ {| recipeName := str "Toast";
                  ingredients := [str "2 slices bread"];
                  instructions := str "Toast the bread." |} ] ].
Proof.
  apply (after_request_modal_never_empty sample_key
           (service_returns "[toast]") sample_recipe_parse
           sample_object_length false
           (loaded_state [sample_product uuid_one "Oats"] None)
           initialRecipeState
           [ {| recipeName := str "Toast";
                ingredients := [str "2 slices bread"];
                instructions := str "Toast the bread." |} ]).
  - discriminate.
  - reflexivity.
Defined.

(** ** The capture surface *)

Module CameraCaptureFacts.
Import CameraCapture.

Lemma rejection_message_not_empty (err : rejection) :
  JsString.is_empty (rejection_message err) = false.
Proof.
  destruct err as [name message|]; simpl; [|reflexivity].
  destruct (JsString.eqb name (str "NotAllowedError")); [reflexivity|].
  destruct (_ || _); reflexivity.
Qed.

Lemma rejection_message_is_not_not_ready (err : rejection) :
  rejection_message err <> msg_not_ready.
Proof.
  destruct err as [name message|]; simpl; [|discriminate].
  destruct (JsString.eqb name (str "NotAllowedError")); [discriminate|].
  destruct (_ || _); discriminate.
Qed.

Lemma mount_invariant (outcome : acquisition) (running : list nat) :
  camera_invariant running (mount outcome running).
Proof.
  unfold camera_invariant, mount.
  destruct outcome as [m|err]; simpl; repeat split; try congruence; eauto.
Qed.

Lemma dispatch_invariant (running : list nat) (ev : Event) (w : World) :
  camera_invariant running w ->
  offered ev (component w) = true ->
  camera_invariant running (dispatch ev w).
Proof.
  unfold camera_invariant. intros (Hlive & Herr & Hcap & Hmsg) Hoff.
  destruct w as [[s e il] l cap]. simpl in *.
  destruct ev as [outcome| |context dataUrl]; simpl in *.
  - destruct s as [m|].
    { unfold error_shown, message_set in Hoff. simpl in Hoff.
      rewrite Herr in Hoff by discriminate. discriminate. }
    destruct cap as [|d cap];
      [|exfalso; apply Hcap; [discriminate | reflexivity]].
    subst l. destruct outcome as [m|err]; simpl.
    + repeat split; try congruence. left. reflexivity.
    + repeat split; try congruence. right. exists err. reflexivity.
  - repeat split; assumption.
  - destruct s as [m|]; [|rewrite !andb_false_r in Hoff; discriminate].
    destruct context; simpl; repeat split; try assumption; discriminate.
Qed.

Lemma run_invariant (running : list nat) (evs : list Event) (w : World) :
  camera_invariant running w -> camera_invariant running (run evs w).
Proof.
  revert w. induction evs as [|ev evs IH]; intros w Hinv; simpl.
  - exact Hinv.
  - apply IH. destruct (offered ev (component w)) eqn:Hoff; [|exact Hinv].
    apply dispatch_invariant; assumption.
Qed.

(** X24: a camera stream, once acquired, is never released.  Through any
    session of a mounted capture surface, and after its unmount, the
    stream the component holds is still running on the device next to the
    streams that ran before: "Try Again" is only offered while no stream
    is held, and the cleanup of the mount effect sees the [stream] of the
    first render, which is [null]. *)
Theorem acquired_stream_is_never_released (outcome : acquisition)
  (running : list nat) (evs : list Event) :
  live (unmount (run evs (mount outcome running)))
  = match stream (component (run evs (mount outcome running))) with
    | Some m => m :: running
    | None => running
    end.
Proof.
  destruct (run_invariant running evs (mount outcome running)
              (mount_invariant outcome running)) as (Hlive & _).
  exact Hlive.
Qed.

(** X25: what a session of the capture surface can show and deliver.  An
    image is handed to [onCapture] only while a stream is held; the error
    slot is empty or holds a message of a rejected acquisition, so
    "Failed to capture image. Camera not ready." is never shown, the
    capture button being hidden or disabled whenever it would apply. *)
Theorem capture_needs_stream (outcome : acquisition) (running : list nat)
  (evs : list Event) :
  (captured (run evs (mount outcome running)) <> [] ->
   stream (component (run evs (mount outcome running))) <> None)
  /\ error (component (run evs (mount outcome running))) <> Some msg_not_ready
  /\ (stream (component (run evs (mount outcome running))) <> None ->
      error (component (run evs (mount outcome running))) = None).
Proof.
  destruct (run_invariant running evs (mount outcome running)
              (mount_invariant outcome running)) as (_ & Herr & Hcap & Hmsg).
  repeat split; try assumption.
  destruct Hmsg as [H|(err & H)]; rewrite H; [discriminate|].
  intros [= E]. exact (rejection_message_is_not_not_ready err E).
Qed.

(** X26: every rejected acquisition can be retried.  Whatever
    [getUserMedia] rejects with, [startCamera] ends with a non-empty
    message, not loading, the held stream unchanged, "Try Again" offered
    and the capture button hidden. *)
Theorem rejected_acquisition_offers_retry (closure_stream : option nat)
  (err : rejection) (w : World) (again : acquisition) (context : bool)
  (dataUrl : jsstring) :
  error (component (startCamera closure_stream (Rejected err) w))
  = Some (rejection_message err)
  /\ rejection_message err <> []
  /\ isLoading (component (startCamera closure_stream (Rejected err) w)) = false
  /\ stream (component (startCamera closure_stream (Rejected err) w))
     = stream (component w)
  /\ offered (ClickTryAgain again)
       (component (startCamera closure_stream (Rejected err) w)) = true
  /\ offered (ClickCapture context dataUrl)
       (component (startCamera closure_stream (Rejected err) w)) = false.
Proof.
  pose proof (rejection_message_not_empty err) as Hne.
  unfold startCamera, offered, error_shown, message_set. simpl.
  rewrite Hne. repeat split.
  apply JsStringFacts.is_empty_false. exact Hne.
Qed.

End CameraCaptureFacts.

(** ** The product card *)

Section ProductCardFacts.

Variable date_is_NaN : jsstring -> bool.
Variable toLocaleDateString_month : jsstring -> result jsstring.
Variable toLocaleDateString_day : jsstring -> result jsstring.

(** X27: what the card shows for the expiry date.  [formatDate] never
    throws, whatever the date functions do.  An empty expiry text is shown
    as "N/A"; a text that is no date, and a plain four-digit year, are
    shown exactly as saved. *)
Theorem expiry_shown_as_saved (product : Product) :
  (exists shown,
     expiry_shown date_is_NaN toLocaleDateString_month toLocaleDateString_day
       product = Return shown)
  /\ (expiryDate product = [] ->
      expiry_shown date_is_NaN toLocaleDateString_month toLocaleDateString_day
        product = Return (str "N/A"))
  /\ (expiryDate product <> [] ->
      date_is_NaN (expiryDate product) = true
      \/ matches_year (expiryDate product) = true ->
      expiry_shown date_is_NaN toLocaleDateString_month toLocaleDateString_day
        product = Return (expiryDate product)).
Proof.
  unfold expiry_shown, formatDate. split; [|split].
  - destruct (JsString.is_empty (expiryDate product)); [eexists; reflexivity|].
    destruct (date_is_NaN _); [eexists; reflexivity|].
    destruct (matches_year _); [eexists; reflexivity|].
    destruct (matches_year_month _).
    + destruct (toLocaleDateString_month _); eexists; reflexivity.
    + destruct (toLocaleDateString_day _); eexists; reflexivity.
  - intros ->. reflexivity.
  - intros Hne Hcase. apply JsStringFacts.is_empty_false in Hne.
    rewrite Hne.
    assert (E : (if date_is_NaN (expiryDate product)
                 then Return (expiryDate product)
                 else if matches_year (expiryDate product)
                 then Return (expiryDate product)
                 else if matches_year_month (expiryDate product)
                 then toLocaleDateString_month (expiryDate product ++ str "-01")
                 else toLocaleDateString_day (expiryDate product))
                = Return (expiryDate product)).
    { destruct Hcase as [H|H]; rewrite H; [reflexivity|].
      destruct (date_is_NaN _); reflexivity. }
    rewrite E. cbn [try_catch bind]. unfold or_else. rewrite Hne. reflexivity.
Qed.

End ProductCardFacts.

Lemma expiry_shown_as_saved_witness :
  expiry_shown sample_date_is_NaN sample_toLocale sample_toLocale
    (scanned_record (str "id-1") (str "2024-06-01T10:00:00.000Z")
       (str "Oats") (str " best before March ")
       sample_name_image sample_expiry_image)
  = Return (str "best before March").
Proof.
  apply (expiry_shown_as_saved sample_date_is_NaN sample_toLocale
           sample_toLocale
           (scanned_record (str "id-1") (str "2024-06-01T10:00:00.000Z")
              (str "Oats") (str " best before March ")
              sample_name_image sample_expiry_image)).
  - discriminate.
  - left. reflexivity.
Defined.
